(** * Verification of [scripts/generate_prompts.py]

    A shallow embedding of the Stryker prompt generator and the proofs of
    the properties its specification states.

    Conventions of the model.
    - A Python [str] is a Rocq [string]; every character stands for the
      Unicode code point with the same number, so the model covers the
      code points U+0000 .. U+00FF.  The character classes used by
      [str.lower], [str.strip], [str.splitlines] and the regular expression
      class [\W] are the ones CPython uses on that range.
    - A Python [int] is a [Z].
    - A parsed JSON report is a tree of records whose optional keys are
      [option] fields; a JSON object that is iterated is an association
      list in insertion order.
    - Exceptions are values of [PyError]; effectful code lives in the
      monad [M], which threads the [World] (file system and standard
      output) and stops at the first exception.
    - The file system may refuse to create a directory or to open a
      file for writing (a name that is too long, a file in the way,
      missing rights); which operations it refuses, and with which error
      number, is part of the [World].  A refused operation changes
      nothing; what was done before it stays.  An error while the
      content of an opened file is being written is outside the model.
    - A directory is named by the text of its [pathlib.Path]; the files
      the program reads and the files it writes are taken to be
      different files, so writing a group file does not change what
      opening a report yields.
    - The existence tests and the directory listing of the report locator
      read a [Node], the directory tree below the working directory; a
      relative [pathlib.Path] is the list of its components. *)

From Stdlib Require Import ZArith NArith Ascii String List Lia Bool.
From Stdlib Require Import DecimalString DecimalZ.
From stdpp Require Import base list strings gmap sorting.

Local Open Scope Z_scope.

(** ** Python strings *)

Module PyStr.

Definition ord (c : ascii) : N := N_of_ascii c.

Definition in_range (lo hi : N) (c : ascii) : bool :=
  (N.leb lo (ord c) && N.leb (ord c) hi)%bool.

(** [str.isalnum] on one code point: letters, decimal digits and the
    other numeric characters of the Latin-1 block. *)
Definition is_alnum (c : ascii) : bool :=
  in_range 48 57 c || in_range 65 90 c || in_range 97 122 c
  || N.eqb (ord c) 170 || in_range 178 179 c || N.eqb (ord c) 181
  || in_range 185 186 c || in_range 188 190 c
  || in_range 192 214 c || in_range 216 246 c || in_range 248 255 c.

(** The class [\w] of a [str] pattern: alphanumeric or underscore. *)
Definition is_word (c : ascii) : bool :=
  is_alnum c || N.eqb (ord c) 95.

(** [str.isspace] on one code point. *)
Definition is_space (c : ascii) : bool :=
  in_range 9 13 c || in_range 28 32 c || N.eqb (ord c) 133
  || N.eqb (ord c) 160.

(** The line boundaries of [str.splitlines]. *)
Definition is_linebreak (c : ascii) : bool :=
  in_range 10 13 c || in_range 28 30 c || N.eqb (ord c) 133.

Definition lower_char (c : ascii) : ascii :=
  if in_range 65 90 c || in_range 192 214 c || in_range 216 222 c
  then ascii_of_N (ord c + 32)
  else c.

(** [s.lower()] *)
Fixpoint lower (s : string) : string :=
  match s with
  | EmptyString => EmptyString
  | String c s' => String (lower_char c) (lower s')
  end.

(** [s.lstrip()], [s.rstrip()] and [s.strip()] *)
Fixpoint lstrip (s : string) : string :=
  match s with
  | EmptyString => EmptyString
  | String c s' => if is_space c then lstrip s' else s
  end.

Fixpoint rstrip (s : string) : string :=
  match s with
  | EmptyString => EmptyString
  | String c s' =>
      match rstrip s' with
      | EmptyString => if is_space c then EmptyString else String c EmptyString
      | r => String c r
      end
  end.

Definition strip (s : string) : string := rstrip (lstrip s).

(** [s.splitlines()]: the text is cut after every line boundary, a
    carriage return directly followed by a line feed counts as one
    boundary, and no empty last line is produced. [cur] holds the
    characters of the line being read. *)
Fixpoint splitlines_from (cur : string) (s : string) : list string :=
  match s with
  | EmptyString =>
      match cur with EmptyString => [] | _ => [cur] end
  | String c s' =>
      if is_linebreak c then
        cur ::
        (if N.eqb (ord c) 13 then
           match s' with
           | String c' s'' =>
               if N.eqb (ord c') 10 then splitlines_from EmptyString s''
               else splitlines_from EmptyString s'
           | EmptyString => splitlines_from EmptyString s'
           end
         else splitlines_from EmptyString s')
      else splitlines_from (cur +:+ String c EmptyString) s'
  end.

Definition splitlines (s : string) : list string :=
  splitlines_from EmptyString s.

(** [s.startswith(p)] *)
Fixpoint startswith (p s : string) : bool :=
  match p, s with
  | EmptyString, _ => true
  | String a p', String b s' => Ascii.eqb a b && startswith p' s'
  | String _ _, EmptyString => false
  end.

(** [s.replace(old, new)].  Occurrences of [old] are found from left to
    right and do not overlap; [skip] counts the characters of the
    occurrence just replaced that are still to be passed over.  For an
    empty [old], [new] is put before every character and at the end. *)
Fixpoint replace_from (old new : string) (skip : nat) (s : string) : string :=
  match s with
  | EmptyString => EmptyString
  | String c s' =>
      match skip with
      | S k => replace_from old new k s'
      | O =>
          if startswith old s
          then new +:+ replace_from old new (String.length old - 1) s'
          else String c (replace_from old new O s')
      end
  end.

Fixpoint intersperse_before (new s : string) : string :=
  match s with
  | EmptyString => new
  | String c s' => new +:+ String c (intersperse_before new s')
  end.

Definition replace (old new s : string) : string :=
  match old with
  | EmptyString => intersperse_before new s
  | _ => replace_from old new O s
  end.

(** [sep.join(parts)] *)
Fixpoint join (sep : string) (parts : list string) : string :=
  match parts with
  | [] => EmptyString
  | [p] => p
  | p :: rest => p +:+ sep +:+ join sep rest
  end.

(** [re.sub(r'\W+', repl, s)]: every maximal run of non-word characters
    is replaced by [repl].  [in_run] tells whether the previous character
    belongs to the run being replaced. *)
Fixpoint re_sub_nonword_from (repl : string) (in_run : bool) (s : string) : string :=
  match s with
  | EmptyString => EmptyString
  | String c s' =>
      if is_word c then String c (re_sub_nonword_from repl false s')
      else if in_run then re_sub_nonword_from repl true s'
      else repl +:+ re_sub_nonword_from repl true s'
  end.

Definition re_sub_nonword (repl s : string) : string :=
  re_sub_nonword_from repl false s.

(** [str(n)] for an [int]. *)
Definition str_of_int (n : Z) : string :=
  NilZero.string_of_int (Z.to_int n).

Definition nl : string := String (ascii_of_N 10) EmptyString.

End PyStr.

(** ** Exceptions and results *)

(** The error numbers with which the file system refuses to create a
    directory or to open a file for writing. *)
Inductive Errno : Type :=
  | ENAMETOOLONG
  | EEXIST
  | ENOTDIR
  | EISDIR
  | EACCES
  | EROFS.

(** [OSError] stands for [OSError] and for its subclasses
    [FileExistsError], [NotADirectoryError], [IsADirectoryError] and
    [PermissionError], told apart by the error number. *)
Inductive PyError : Type :=
  | FileNotFoundError
  | JSONDecodeError
  | TypeError
  | KeyError (key : string)
  | IndexError
  | OSError (errno : Errno).

Inductive Res (A : Type) : Type :=
  | Ok (a : A)
  | Raise (e : PyError).
Arguments Ok {A} a.
Arguments Raise {A} e.

Definition res_bind {A B} (c : Res A) (k : A -> Res B) : Res B :=
  match c with
  | Ok a => k a
  | Raise e => Raise e
  end.

Notation "'try' x <~ c 'in' k" := (res_bind c (fun x => k))
  (at level 10, x pattern, c at level 100, k at level 200).

(** [d[key]] on a dictionary whose entry for [key] is [o]. *)
Definition getitem {A} (key : string) (o : option A) : Res A :=
  match o with
  | Some a => Ok a
  | None => Raise (KeyError key)
  end.

(** [d.get(key, dflt)] *)
Definition get {A} (o : option A) (dflt : A) : A :=
  match o with
  | Some a => a
  | None => dflt
  end.

(** [l[i]] on a list, with Python's indices counted from the end when
    negative. *)
Definition list_getitem {A} (l : list A) (i : Z) : Res A :=
  let n := Z.of_nat (length l) in
  let j := if i <? 0 then i + n else i in
  if (j <? 0) || (n <=? j) then Raise IndexError
  else match l !! Z.to_nat j with
       | Some x => Ok x
       | None => Raise IndexError
       end.

(** A [for] loop whose body updates the loop state and may raise. *)
Fixpoint for_each {A S} (body : A -> S -> Res S) (l : list A) (s : S) : Res S :=
  match l with
  | [] => Ok s
  | x :: l' =>
      match body x s with
      | Ok s' => for_each body l' s'
      | Raise e => Raise e
      end
  end.

(** ** The mutation report *)

(** The report as [json.load] returns it.  Keys the program reads with
    [d[key]] or [d.get(key, ...)] are optional fields. *)
Module Stryker.

Record Start : Type := { line : option Z }.

Record Location : Type := { start : option Start }.

Record Mutant : Type := {
  status : option string;
  location : option Location;
  replacement : option string;
  mutatorName : option string
}.

Record FileData : Type := {
  source : option string;
  mutants : option (list Mutant)
}.

Record Report : Type := {
  files : option (list (string * FileData))
}.

End Stryker.
Import Stryker.

(** What [json.load] makes of the text of a file. *)
Inductive JsonValue : Type :=
  | JsonObject (report : Report)
  | JsonOther.

(** What opening a path and parsing its content yields. *)
Inductive ReportFile : Type :=
  | NoSuchFile
  | NotJson
  | Json (v : JsonValue).

(** ** The world: report files, output directories, standard output *)

(** The operations of the program that change the file system. *)
Inductive FsOp : Type :=
  | OpMkdir (dir : string)
  | OpWrite (dir name : string).

(** [w_open] is what opening and parsing a path yields; [w_dirs] holds
    every directory there is, by its path, with the text files in it;
    [w_stdout] holds the lines printed; [w_fault] tells which operations
    the file system refuses: the making of a directory where a regular
    file is in the way is a refused [OpMkdir], the writing of a file
    whose name is too long a refused [OpWrite].  Report files and output
    files are taken to be different files. *)
Record World : Type := {
  w_open : string -> ReportFile;
  w_dirs : gmap string (gmap string string);
  w_stdout : list string;
  w_fault : FsOp -> option Errno
}.

Definition M (A : Type) : Type := World -> Res A * World.

Definition m_ret {A} (a : A) : M A := fun w => (Ok a, w).

Definition m_bind {A B} (c : M A) (k : A -> M B) : M B :=
  fun w =>
    match c w with
    | (Ok a, w') => k a w'
    | (Raise e, w') => (Raise e, w')
    end.

Definition m_lift {A} (r : Res A) : M A := fun w => (r, w).

Notation "'run' x <~ c 'in' k" := (m_bind c (fun x => k))
  (at level 10, x pattern, c at level 100, k at level 200).

(** [with open(path) as f: json.load(f)] *)
Definition json_load (path : string) : M JsonValue :=
  fun w =>
    match w_open w path with
    | NoSuchFile => (Raise FileNotFoundError, w)
    | NotJson => (Raise JSONDecodeError, w)
    | Json v => (Ok v, w)
    end.

(** A [for] loop over effectful statements. *)
Fixpoint m_for_each {A} (body : A -> M unit) (l : list A) : M unit :=
  match l with
  | [] => m_ret tt
  | x :: l' => run _ <~ body x in m_for_each body l'
  end.

(** The parent directories of a path, outermost first: its proper
    prefixes that end before a slash. *)
Fixpoint ancestors_from (prefix : string) (s : string) : list string :=
  match s with
  | EmptyString => []
  | String c s' =>
      (if Ascii.eqb c "/" then
         match prefix with
         | EmptyString => []
         | _ => [prefix]
         end
       else [])
      ++ ancestors_from (prefix +:+ String c EmptyString) s'
  end.

Definition ancestors (dir : string) : list string := ancestors_from EmptyString dir.

(** One step of [mkdir]: a directory that is there is left alone
    ([exist_ok=True]); one that is not is created empty, unless the
    file system refuses. *)
Definition ensure_dir (dir : string) : M unit :=
  fun w =>
    match w_dirs w !! dir with
    | Some _ => (Ok tt, w)
    | None =>
        match w_fault w (OpMkdir dir) with
        | Some errno => (Raise (OSError errno), w)
        | None =>
            (Ok tt,
             {| w_open := w_open w;
                w_dirs := <[dir := ∅]> (w_dirs w);
                w_stdout := w_stdout w;
                w_fault := w_fault w |})
        end
    end.

(** [dir.mkdir(parents=True, exist_ok=True)]: the missing parents are
    created first, outermost first, then the directory itself. *)
Definition mkdir (dir : string) : M unit :=
  m_for_each ensure_dir (ancestors dir ++ [dir]).

(** [(dir / name).write_text(content)] *)
Definition write_text (dir name content : string) : M unit :=
  fun w =>
    match w_dirs w !! dir with
    | None => (Raise FileNotFoundError, w)
    | Some entries =>
        match w_fault w (OpWrite dir name) with
        | Some errno => (Raise (OSError errno), w)
        | None =>
            (Ok tt,
             {| w_open := w_open w;
                w_dirs := <[dir := <[name := content]> entries]> (w_dirs w);
                w_stdout := w_stdout w;
                w_fault := w_fault w |})
        end
    end.

(** [print(text)] *)
Definition print (text : string) : M unit :=
  fun w =>
    (Ok tt,
     {| w_open := w_open w;
        w_dirs := w_dirs w;
        w_stdout := w_stdout w ++ [text];
        w_fault := w_fault w |}).

(** ** The program *)

(** [extract_original_line] *)
Definition extract_original_line (source_code : string) (line_number : Z) : Res string :=
  let lines := PyStr.splitlines source_code in
  if line_number <=? Z.of_nat (length lines)
  then try l <~ list_getitem lines (line_number - 1) in Ok (PyStr.strip l)
  else Ok "N/A".

(** The f-string of the prompt. *)
Definition prompt_text (local_path : string) (line : Z)
    (mutator original mutated : string) : string :=
  "Write a unit test to detect a survived mutation" +:+ PyStr.nl +:+
  PyStr.nl +:+
  "- File: `" +:+ local_path +:+ "`" +:+ PyStr.nl +:+
  "- Line: " +:+ PyStr.str_of_int line +:+ PyStr.nl +:+
  "- Mutator: `" +:+ mutator +:+ "`" +:+ PyStr.nl +:+
  "- Original Code: `" +:+ original +:+ "`" +:+ PyStr.nl +:+
  "- Mutated Code: `" +:+ mutated +:+ "`" +:+ PyStr.nl +:+
  PyStr.nl +:+
  "The test should fail if the mutation is present and pass otherwise.".

(** [prompts_by_mutator]: a [defaultdict(list)], as the list of its items
    in insertion order. *)
Abbreviation Groups := (list (string * list string)).

(** [d[key].append(value)] on a [defaultdict(list)]. *)
Fixpoint dd_append (key value : string) (d : Groups) : Groups :=
  match d with
  | [] => [(key, [value])]
  | (k, vs) :: d' =>
      if String.eqb k key then (k, vs ++ [value]) :: d'
      else (k, vs) :: dd_append key value d'
  end.

(** The statements of the inner loop after the status test: the mutator
    name and the prompt of one surviving mutant. *)
Definition build_prompt (local_path source_code : string) (mutant : Mutant)
    : Res (string * string) :=
  try loc <~ getitem "location" (location mutant) in
  try st <~ getitem "start" (start loc) in
  try line <~ getitem "line" (line st) in
  try original <~ extract_original_line source_code line in
  let mutated := get (replacement mutant) "N/A" in
  try mutator <~ getitem "mutatorName" (mutatorName mutant) in
  Ok (mutator, prompt_text local_path line mutator original mutated).

(** The body of the inner loop. *)
Definition process_mutant (local_path source_code : string) (mutant : Mutant)
    (prompts_by_mutator : Groups) : Res Groups :=
  try st <~ getitem "status" (status mutant) in
  if negb (String.eqb st "Survived") then Ok prompts_by_mutator
  else
    try entry <~ build_prompt local_path source_code mutant in
    Ok (dd_append (fst entry) (snd entry) prompts_by_mutator).

(** [local_path] of the outer loop. *)
Definition local_path (base_path_to_strip file_path : string) : string :=
  PyStr.replace base_path_to_strip EmptyString file_path.

(** The body of the outer loop. *)
Definition process_file (base_path_to_strip : string) (item : string * FileData)
    (prompts_by_mutator : Groups) : Res Groups :=
  let source_code := get (source (snd item)) EmptyString in
  for_each (process_mutant (local_path base_path_to_strip (fst item)) source_code)
           (get (mutants (snd item)) []) prompts_by_mutator.

(** Lines 35 to 59: the grouping of the prompts. *)
Definition collect_prompts (base_path_to_strip : string) (report : JsonValue)
    : Res Groups :=
  try fs <~ match report with
            | JsonObject r => getitem "files" (files r)
            | JsonOther => Raise TypeError
            end in
  for_each (process_file base_path_to_strip) fs [].

(** The name of the file a group is written to. *)
Definition output_filename (mutator : string) : string :=
  PyStr.re_sub_nonword EmptyString (PyStr.lower mutator) +:+ "_prompts.txt".

Definition separator : string := PyStr.nl +:+ "---" +:+ PyStr.nl.

Definition write_group (output_dir : string) (group : string * list string) : M unit :=
  write_text output_dir (output_filename (fst group))
             (PyStr.join separator (snd group)).

Definition summary (groups : nat) (output_dir : string) : string :=
  "Generated prompts for " +:+ PyStr.str_of_int (Z.of_nat groups)
  +:+ " mutators in '" +:+ output_dir +:+ "'".

(** What a Python call evaluates to. *)
Inductive PyValue : Type :=
  | PyNone
  | PyInt (n : Z).

(** [generate_prompts_by_mutator] *)
Definition generate_prompts_by_mutator
    (report_path output_dir base_path_to_strip : string) : M PyValue :=
  run report <~ json_load report_path in
  run prompts_by_mutator <~ m_lift (collect_prompts base_path_to_strip report) in
  run _ <~ mkdir output_dir in
  run _ <~ m_for_each (write_group output_dir) prompts_by_mutator in
  run _ <~ print (summary (length prompts_by_mutator) output_dir) in
  m_ret PyNone.

(** ** Notions the properties are stated with *)

(** The characters of [s] that satisfy [keep], in order. *)
Fixpoint string_filter (keep : ascii -> bool) (s : string) : string :=
  match s with
  | EmptyString => EmptyString
  | String c s' =>
      if keep c then String c (string_filter keep s') else string_filter keep s'
  end.

(** The file name as the specification words it: runs of non-word
    characters become one underscore. *)
Definition spec_output_filename (mutator : string) : string :=
  PyStr.re_sub_nonword "_" (PyStr.lower mutator) +:+ "_prompts.txt".

(** [old] occurs somewhere in [s]. *)
Fixpoint occurs (old s : string) : bool :=
  PyStr.startswith old s ||
  match s with
  | EmptyString => false
  | String _ s' => occurs old s'
  end.

(** [s] without its last character. *)
Fixpoint but_last (s : string) : string :=
  match s with
  | EmptyString => EmptyString
  | String c EmptyString => EmptyString
  | String c s' => String c (but_last s')
  end.

Fixpoint string_drop (n : nat) (s : string) : string :=
  match n, s with
  | O, _ => s
  | S n', String _ s' => string_drop n' s'
  | S _, EmptyString => EmptyString
  end.

(** The local path as the specification words it: only a leading
    occurrence of the prefix is removed. *)
Definition spec_local_path (base_path_prefix file_path : string) : string :=
  if PyStr.startswith base_path_prefix file_path
  then string_drop (String.length base_path_prefix) file_path
  else file_path.

(** A mutant as the loops meet it: with the local path and the source
    text of the file entry it stands in. *)
Record Visit : Type := {
  v_local_path : string;
  v_source : string;
  v_mutant : Mutant
}.

Definition file_visits (base : string) (item : string * FileData) : list Visit :=
  map (fun m => {| v_local_path := local_path base (fst item);
                   v_source := get (source (snd item)) EmptyString;
                   v_mutant := m |})
      (get (mutants (snd item)) []).

(** Every mutant of the report, in the order of the [files] mapping and,
    within a file entry, in the order of its [mutants] list. *)
Definition traversal (base : string) (r : Report) : list Visit :=
  flat_map (file_visits base) (get (files r) []).

Definition is_survived (m : Mutant) : bool :=
  match status m with
  | Some s => String.eqb s "Survived"
  | None => false
  end.

(** The surviving mutants, in the order they are met. *)
Definition survivors (base : string) (r : Report) : list Visit :=
  filter (fun v => is_survived (v_mutant v)) (traversal base r).

(** The mutator name and the prompt of a surviving mutant. *)
Definition visit_prompt (v : Visit) : Res (string * string) :=
  build_prompt (v_local_path v) (v_source v) (v_mutant v).

(** The prompts of one mutator among a sequence of (mutator, prompt)
    pairs, in the order of the sequence. *)
Definition prompts_of (mutator : string) (es : list (string * string)) : list string :=
  map snd (filter (fun e => fst e = mutator) es).

(** The distinct names of a sequence, each at its first occurrence. *)
Definition first_seen (names : list string) : list string :=
  fold_left (fun acc x => if decide (x ∈ acc) then acc else acc ++ [x]) names [].

(** Every mutant of the report, in the order the loops meet them. *)
Definition all_mutants (r : Report) : list Mutant :=
  flat_map (fun item : string * FileData => get (mutants (snd item)) [])
           (get (files r) []).

(** The mutator names of the surviving mutants of a report, in the order
    they are met, with repetitions. *)
Definition survived_mutator_names (r : Report) : list string :=
  omap mutatorName (filter (fun m => is_survived m) (all_mutants r)).

(** The number of distinct mutator names among the surviving mutants. *)
Definition distinct_survived_mutators (r : Report) : nat :=
  size (list_to_set (survived_mutator_names r) : gset string).

(** [prompts_by_mutator[key]] *)
Fixpoint group (key : string) (d : Groups) : list string :=
  match d with
  | [] => []
  | (k, vs) :: d' => if String.eqb k key then vs else group key d'
  end.

Definition add_entry (d : Groups) (e : string * string) : Groups :=
  dd_append (fst e) (snd e) d.

(** The directory listing after the groups [d] have been written into a
    directory that held [entries]. *)
Definition write_all (d : Groups) (entries : gmap string string) : gmap string string :=
  fold_left (fun dir g => <[output_filename (fst g) := PyStr.join separator (snd g)]> dir)
            d entries.

(** The shape of a report the specification calls well formed: the
    [files] key is present, every mutant has a status, and every surviving
    mutant has a line number of at least 1 and a mutator name. *)
Definition mutant_line (m : Mutant) : option Z :=
  match location m with
  | Some loc => match start loc with
                | Some st => line st
                | None => None
                end
  | None => None
  end.

Definition mutant_ok (m : Mutant) : bool :=
  match status m with
  | None => false
  | Some s =>
      if String.eqb s "Survived" then
        match mutant_line m, mutatorName m with
        | Some n, Some _ => 1 <=? n
        | _, _ => false
        end
      else true
  end.

Definition well_formed (r : Report) : bool :=
  match files r with
  | None => false
  | Some fs => forallb (fun item => forallb mutant_ok (get (mutants (snd item)) [])) fs
  end.

(** A world in which the report at [path] is [r]. *)
Definition with_report (path : string) (r : Report) (w : World) : World :=
  {| w_open := fun p => if String.eqb p path then Json (JsonObject r) else w_open w p;
     w_dirs := w_dirs w;
     w_stdout := w_stdout w;
     w_fault := w_fault w |}.

(** What a run leaves behind: its result, the directories and the
    standard output. *)
Definition outcome (x : Res PyValue * World)
    : Res PyValue * gmap string (gmap string string) * list string :=
  (fst x, w_dirs (snd x), w_stdout (snd x)).

(** The content of the file [name] of the directory [dir], when the
    directory and the file exist. *)
Definition file_content (dir name : string) (w : World) : option string :=
  match w_dirs w !! dir with
  | Some entries => entries !! name
  | None => None
  end.

(** Among the mutator names [names], in the order their groups are
    written, the last one whose file is [name]. *)
Definition last_writer (name : string) (names : list string) : option string :=
  last (filter (fun k => output_filename k = name) names).

(** ** Sample inputs *)

Definition blank_world : World :=
  {| w_open := fun _ => NoSuchFile; w_dirs := ∅; w_stdout := [];
     w_fault := fun _ => None |}.

Definition survived_mutant (n : Z) (name : string) : Mutant :=
  {| status := Some "Survived";
     location := Some {| start := Some {| line := Some n |} |};
     replacement := None;
     mutatorName := Some name |}.

(** A mutant record that has nothing but, possibly, a status. *)
Definition bare_mutant (st : option string) : Mutant :=
  {| status := st; location := None; replacement := None; mutatorName := None |}.

Definition one_file (path src : string) (ms : list Mutant) : Report :=
  {| files := Some [(path, {| source := Some src; mutants := Some ms |})] |}.

(** The report of the end-to-end example of the specification. *)
Definition foo_report : Report :=
  one_file "x/y.js" "let a = 1;" [survived_mutant 1 "Foo"].

(** The prompt the end-to-end example expects. *)
Definition foo_prompt : string :=
  "Write a unit test to detect a survived mutation" +:+ PyStr.nl +:+
  PyStr.nl +:+
  "- File: `y.js`" +:+ PyStr.nl +:+
  "- Line: 1" +:+ PyStr.nl +:+
  "- Mutator: `Foo`" +:+ PyStr.nl +:+
  "- Original Code: `let a = 1;`" +:+ PyStr.nl +:+
  "- Mutated Code: `N/A`" +:+ PyStr.nl +:+
  PyStr.nl +:+
  "The test should fail if the mutation is present and pass otherwise.".

(** A report whose mutator names [Foo] and [foo] share a file name. *)
Definition collision_report : Report :=
  one_file "y.js" ("let a = 1;" +:+ PyStr.nl +:+ "let b = 2;")
           [survived_mutant 1 "Foo"; survived_mutant 2 "foo"; survived_mutant 2 "Foo"].

(** The report of the end-to-end example with one more mutant [m]. *)
Definition foo_report_with (m : Mutant) : Report :=
  one_file "x/y.js" "let a = 1;" [survived_mutant 1 "Foo"; m].

(** A report with the file entry [(path, src, ms)] between the file
    entries [before] and [after]. *)
Definition report_around (before : list (string * FileData)) (path : string)
    (src : option string) (ms : list Mutant) (after : list (string * FileData)) : Report :=
  {| files := Some (before ++ (path, {| source := src; mutants := Some ms |}) :: after) |}.

(** ** The directory tree and the report locator *)

(** What the existence tests and the directory listing see: the tree
    below the working directory.  A relative path is the list of its
    components. *)
#[local] Unset Elimination Schemes.
Inductive Node : Type :=
  | FileNode
  | DirNode (entries : list (string * Node)).
#[local] Set Elimination Schemes.

Abbreviation Path := (list string).

Fixpoint entry_named (name : string) (entries : list (string * Node)) : option Node :=
  match entries with
  | [] => None
  | (k, n) :: rest => if String.eqb k name then Some n else entry_named name rest
  end.

Definition child (n : Node) (name : string) : option Node :=
  match n with
  | FileNode => None
  | DirNode entries => entry_named name entries
  end.

Fixpoint node_at (tree : Node) (p : Path) : option Node :=
  match p with
  | [] => Some tree
  | c :: p' =>
      match child tree c with
      | Some n => node_at n p'
      | None => None
      end
  end.

(** [p.exists()] *)
Definition path_exists (tree : Node) (p : Path) : bool :=
  match node_at tree p with
  | Some _ => true
  | None => false
  end.

Definition is_dir (n : Node) : bool :=
  match n with
  | DirNode _ => true
  | FileNode => false
  end.

(** [p.name] *)
Definition path_name (p : Path) : string := default EmptyString (last p).

(** [base_dir.glob("*/")]: the directories directly below [base_dir]
    (a pattern that ends in a slash matches directories only, as of
    Python 3.11), hidden ones included, in the order the directory lists
    them; nothing when [base_dir] is not a directory. *)
Definition glob_dirs (tree : Node) (base_dir : Path) : list Path :=
  match node_at tree base_dir with
  | Some (DirNode entries) =>
      map (fun e => base_dir ++ [fst e]) (filter (fun e => is_dir (snd e)) entries)
  | _ => []
  end.

(** [sorted(l, key=key, reverse=True)]: a stable sort into descending
    order of the keys, strings being compared code point by code point. *)
Fixpoint insert_desc {A} (key : A -> string) (x : A) (l : list A) : list A :=
  match l with
  | [] => [x]
  | y :: l' =>
      if String.leb (key y) (key x) then x :: l else y :: insert_desc key x l'
  end.

Definition sorted_desc {A} (key : A -> string) (l : list A) : list A :=
  foldr (insert_desc key) [] l.

(** [subdir / "coverage" / "stryker.json"] *)
Definition report_in (subdir : Path) : Path := subdir ++ ["coverage"; "stryker.json"].

(** The loop over the sorted subdirectories. *)
Fixpoint first_report (tree : Node) (subdirs : list Path) : option Path :=
  match subdirs with
  | [] => None
  | subdir :: rest =>
      if path_exists tree (report_in subdir) then Some (report_in subdir)
      else first_report tree rest
  end.

Definition default_report : Path := ["coverage"; "stryker.json"].

Definition fallback_report : Path := ["coverage"; "stryker.json"].

(** [get_latest_report_path] *)
Definition get_latest_report_path (tree : Node) (base_dir : Path) : Res Path :=
  match (if path_exists tree base_dir
         then first_report tree (sorted_desc path_name (glob_dirs tree base_dir))
         else None) with
  | Some report => Ok report
  | None =>
      if path_exists tree default_report then Ok default_report
      else if path_exists tree fallback_report then Ok fallback_report
      else Raise FileNotFoundError
  end.

(** [str(p)] *)
Definition path_str (p : Path) : string :=
  match p with
  | [] => "."
  | _ => PyStr.join "/" p
  end.

(** The script run as a program.  [cwd] is [str(Path.cwd())]; [tree] is
    the directory tree below it. *)
Definition main (cwd : string) (tree : Node) : M PyValue :=
  let base_dir := ["StrykerOutput"] in
  let output_dir := "stryker_prompts_by_mutator" in
  let base_path_to_strip := cwd +:+ "/" in
  run report_path <~ m_lift (get_latest_report_path tree base_dir) in
  generate_prompts_by_mutator (path_str report_path) output_dir base_path_to_strip.

(** A tree with two dated runs below [StrykerOutput], the older one
    listed first, and a report in the default place. *)
Definition sample_tree : Node :=
  let dated := DirNode [("coverage", DirNode [("stryker.json", FileNode)])] in
  DirNode [("StrykerOutput",
            DirNode [("2024-01-05", dated); ("notes.txt", FileNode);
                     ("2024-03-01", dated); ("2024-02-10", DirNode [])]);
           ("coverage", DirNode [("stryker.json", FileNode)])].

(** Two listings of the same two dated runs. *)
Definition dated_run : Node :=
  DirNode [("coverage", DirNode [("stryker.json", FileNode)])].

Definition listed_old_first : Node :=
  DirNode [("2024-01-05", dated_run); ("2024-03-01", dated_run)].

Definition listed_new_first : Node :=
  DirNode [("2024-03-01", dated_run); ("2024-01-05", dated_run)].

(** A report without a surviving mutant. *)
Definition killed_report : Report :=
  one_file "x/y.js" "let a = 1;" [bare_mutant (Some "Killed"); bare_mutant (Some "Timeout")].

(** A mutant with a status that is not [Survived]. *)
Definition not_survived (m : Mutant) : Prop :=
  exists s, status m = Some s /\ s <> "Survived".




(** ** The file system after a run *)

(** The directories after the directories [dirs] have been made, none
    being refused: the missing ones are there, empty. *)
Definition make_dirs (dirs : list string) (ds : gmap string (gmap string string))
    : gmap string (gmap string string) :=
  fold_left (fun ds q => match ds !! q with
                         | Some _ => ds
                         | None => <[q := ∅]> ds
                         end) dirs ds.

(** The same with refusals: the error number of the first refusal, if
    any, and the directories at that point. *)
Fixpoint make_dirs_outcome (fault : FsOp -> option Errno) (dirs : list string)
    (ds : gmap string (gmap string string))
    : option Errno * gmap string (gmap string string) :=
  match dirs with
  | [] => (None, ds)
  | q :: rest =>
      match ds !! q with
      | Some _ => make_dirs_outcome fault rest ds
      | None =>
          match fault (OpMkdir q) with
          | Some errno => (Some errno, ds)
          | None => make_dirs_outcome fault rest (<[q := ∅]> ds)
          end
      end
  end.

(** Writing the groups [d] into a directory that holds [entries]: the
    error number of the first refused write, if any, and the files of
    the directory at that point. *)
Fixpoint write_groups_outcome (fault : string -> option Errno) (d : Groups)
    (entries : gmap string string) : option Errno * gmap string string :=
  match d with
  | [] => (None, entries)
  | g :: rest =>
      match fault (output_filename (fst g)) with
      | Some errno => (Some errno, entries)
      | None =>
          write_groups_outcome fault rest
            (<[output_filename (fst g) := PyStr.join separator (snd g)]> entries)
      end
  end.

(** Lines 61 to 64 on the directories [ds]. *)
Definition files_outcome (fault : FsOp -> option Errno) (output_dir : string)
    (d : Groups) (ds : gmap string (gmap string string))
    : option Errno * gmap string (gmap string string) :=
  match make_dirs_outcome fault (ancestors output_dir ++ [output_dir]) ds with
  | (Some errno, ds1) => (Some errno, ds1)
  | (None, ds1) =>
      match write_groups_outcome (fun name => fault (OpWrite output_dir name)) d
              (default ∅ (ds1 !! output_dir)) with
      | (err, entries) => (err, <[output_dir := entries]> ds1)
      end
  end.

(** The file system lets [dir] and its missing parents be created. *)
Definition mkdir_allowed (w : World) (dir : string) : bool :=
  forallb (fun q => match w_dirs w !! q, w_fault w (OpMkdir q) with
                    | None, Some _ => false
                    | _, _ => true
                    end)
          (ancestors dir ++ [dir]).

(** The file system lets the files [names] be written into [dir]. *)
Definition writes_allowed (w : World) (dir : string) (names : list string) : bool :=
  forallb (fun name => match w_fault w (OpWrite dir name) with
                       | None => true
                       | Some _ => false
                       end)
          names.

(** The separator of the specification: a newline, three hyphens, a
    newline. *)
Definition spec_separator : string :=
  String (ascii_of_N 10) (String "-" (String "-" (String "-"
    (String (ascii_of_N 10) EmptyString)))).

(** The content of a group file as the specification words it: the
    prompts in their order with the separator between them and nothing
    after the last.  [String.concat] is the Standard Library's. *)
Definition spec_joined (prompts : list string) : string :=
  String.concat spec_separator prompts.

(** ** A file system with a limit on the length of names *)

(** The length in bytes of the UTF-8 encoding of a string of code points
    below 256. *)
Fixpoint utf8_length (s : string) : nat :=
  match s with
  | EmptyString => O
  | String c s' =>
      ((if N.ltb (PyStr.ord c) 128 then 1 else 2) + utf8_length s')%nat
  end.

(** The last component of a path. *)
Fixpoint basename_from (cur : string) (s : string) : string :=
  match s with
  | EmptyString => cur
  | String c s' =>
      if Ascii.eqb c "/" then basename_from EmptyString s'
      else basename_from (cur +:+ String c EmptyString) s'
  end.

Definition basename (p : string) : string := basename_from EmptyString p.

(** A file system that refuses names of more than [limit] bytes and
    nothing else. *)
Definition name_limit (limit : nat) (op : FsOp) : option Errno :=
  match op with
  | OpMkdir dir =>
      if Nat.ltb limit (utf8_length (basename dir)) then Some ENAMETOOLONG else None
  | OpWrite _ name =>
      if Nat.ltb limit (utf8_length name) then Some ENAMETOOLONG else None
  end.

Fixpoint string_repeat (c : ascii) (n : nat) : string :=
  match n with
  | O => EmptyString
  | S n' => String c (string_repeat c n')
  end.

(** A world without directories whose file system has the usual limit
    of 255 bytes for a name. *)
Definition limited_world : World :=
  {| w_open := fun _ => NoSuchFile; w_dirs := ∅; w_stdout := [];
     w_fault := name_limit 255 |}.

(** A well-formed report with a short mutator name and one of 250
    letters, whose file name has 262 bytes. *)
Definition long_name_report : Report :=
  one_file "x/y.js" "let a = 1;"
           [survived_mutant 1 "Foo"; survived_mutant 1 (string_repeat "a" 250)].

(** A report with two mutator names and two prompts for one of them. *)
Definition two_group_report : Report :=
  one_file "y.js" ("let a = 1;" +:+ PyStr.nl +:+ "let b = 2;")
           [survived_mutant 1 "Foo"; survived_mutant 2 "Bar"; survived_mutant 2 "Foo"].



(** * Properties *)

(** ** Strings *)

Example ex_splitlines :
  PyStr.splitlines ("a" +:+ PyStr.nl +:+ "b" +:+ PyStr.nl +:+ PyStr.nl +:+ "c" +:+ PyStr.nl)
  = ["a"; "b"; EmptyString; "c"].
Proof. reflexivity. Qed.

Example ex_replace : PyStr.replace "aa" EmptyString "aaab" = "ab".
Proof. reflexivity. Qed.

Example ex_resub : PyStr.re_sub_nonword "_" "a  b!" = "a_b_".
Proof. reflexivity. Qed.

Example ex_str : PyStr.str_of_int (-12) = "-12" /\ PyStr.str_of_int 0 = "0".
Proof. split; reflexivity. Qed.

Example ex_strip : PyStr.strip "  a b  " = "a b".
Proof. reflexivity. Qed.

Lemma app_cons (c : ascii) (s t : string) : String c s +:+ t = String c (s +:+ t).
Proof. reflexivity. Qed.

Lemma app_empty_l (t : string) : EmptyString +:+ t = t.
Proof. reflexivity. Qed.

Lemma app_empty_r (s : string) : s +:+ EmptyString = s.
Proof. induction s as [|c s IH]; [reflexivity | now rewrite app_cons, IH]. Qed.

Lemma app_assoc_str (a b c : string) : (a +:+ b) +:+ c = a +:+ b +:+ c.
Proof. induction a as [|x a IH]; [reflexivity | now rewrite !app_cons, IH]. Qed.

Lemma re_sub_nonword_from_delete (in_run : bool) (s : string) :
  PyStr.re_sub_nonword_from EmptyString in_run s = string_filter PyStr.is_word s.
Proof.
  revert in_run.
  induction s as [|c s IH]; intros in_run; simpl; [reflexivity|].
  destruct (PyStr.is_word c).
  - now rewrite IH.
  - destruct in_run; simpl; apply IH.
Qed.

Lemma lower_length (s : string) : String.length (PyStr.lower s) = String.length s.
Proof. induction s as [|c s IH]; simpl; [reflexivity | congruence]. Qed.

(** ** C1: the output file name *)

(** C1, as the specification states it, fails: the name
    [Block Statement/Removal] is not mapped to
    [block_statement_removal_prompts.txt]. *)
Lemma output_filename_no_underscore :
  output_filename "Block Statement/Removal" <> "block_statement_removal_prompts.txt"
  /\ output_filename "Block Statement/Removal"
     <> spec_output_filename "Block Statement/Removal".
Proof. split; vm_compute; discriminate. Qed.

(** A letter outside ASCII is a word character: it is kept, lower-cased. *)
Example output_filename_latin_letter :
  output_filename (String (ascii_of_N 201) "t" +:+ "/")
  = String (ascii_of_N 233) "t_prompts.txt".
Proof. reflexivity. Qed.

(** C1 (amended): for every mutator name the output file name is the
    lower-cased name from which every non-word character has been deleted
    (every maximal run of non-word characters is replaced by the empty
    string), followed by [_prompts.txt]; the name [Block Statement/Removal]
    is mapped to [blockstatementremoval_prompts.txt]. *)
Theorem output_filename_deletes_nonword :
  (forall mutator : string,
     output_filename mutator
     = string_filter PyStr.is_word (PyStr.lower mutator) +:+ "_prompts.txt")
  /\ output_filename "Block Statement/Removal" = "blockstatementremoval_prompts.txt".
Proof.
  split; [|reflexivity].
  intros mutator. unfold output_filename, PyStr.re_sub_nonword.
  now rewrite re_sub_nonword_from_delete.
Qed.

Lemma length_app_str (a b : string) :
  String.length (a +:+ b) = (String.length a + String.length b)%nat.
Proof. induction a as [|x a IH]; [reflexivity | rewrite app_cons; simpl; lia]. Qed.

Lemma startswith_app (p t r : string) :
  (String.length p <= String.length t)%nat ->
  PyStr.startswith p (t +:+ r) = PyStr.startswith p t.
Proof.
  revert t. induction p as [|a p IH]; intros [|b t] Hlen; simpl in *; try reflexivity.
  - lia.
  - rewrite IH by lia. reflexivity.
Qed.

Lemma startswith_self (p r : string) : PyStr.startswith p (p +:+ r) = true.
Proof.
  induction p as [|a p IH]; [reflexivity|].
  rewrite app_cons. simpl. now rewrite Ascii.eqb_refl, IH.
Qed.

Lemma startswith_split (p s : string) :
  PyStr.startswith p s = true -> exists r, s = p +:+ r.
Proof.
  revert s. induction p as [|a p IH]; intros s H.
  - now exists s.
  - destruct s as [|b s]; simpl in H; [discriminate|].
    apply andb_prop in H as [Hab Hps]. apply Ascii.eqb_eq in Hab as ->.
    destruct (IH _ Hps) as [r ->]. now exists r.
Qed.

(** [occurs] decides whether the text contains the pattern. *)
Lemma occurs_iff (old s : string) :
  occurs old s = true <-> exists a b, s = a +:+ old +:+ b.
Proof.
  split.
  - induction s as [|c s IH]; simpl; intros H.
    + rewrite orb_false_r in H. destruct (startswith_split _ _ H) as [r ->].
      now exists EmptyString, r.
    + apply orb_prop in H as [H|H].
      * destruct (startswith_split _ _ H) as [r ->]. now exists EmptyString, r.
      * destruct (IH H) as (a & b & ->). now exists (String c a), b.
  - intros (a & b & ->). induction a as [|c a IH].
    + rewrite app_empty_l. destruct (old +:+ b) eqn:E; simpl; rewrite <- E;
        now rewrite startswith_self.
    + rewrite app_cons. simpl. rewrite IH. apply orb_true_r.
Qed.

Lemma but_last_length (s : string) :
  String.length (but_last s) = (String.length s - 1)%nat.
Proof.
  induction s as [|c s IH]; [reflexivity|].
  destruct s as [|d s]; [reflexivity|].
  change (but_last (String c (String d s))) with (String c (but_last (String d s))).
  simpl String.length in *. lia.
Qed.

Lemma but_last_snoc (s : string) :
  s <> EmptyString -> exists c, s = but_last s +:+ String c EmptyString.
Proof.
  induction s as [|c s IH]; [congruence|]. intros _.
  destruct s as [|d s]; [now exists c|].
  destruct IH as [e He]; [discriminate|]. exists e.
  change (but_last (String c (String d s))) with (String c (but_last (String d s))).
  rewrite app_cons. now rewrite <- He.
Qed.

Lemma replace_from_skip (old new p rest : string) :
  PyStr.replace_from old new (String.length p) (p +:+ rest)
  = PyStr.replace_from old new O rest.
Proof.
  induction p as [|c p IH]; [now destruct rest|].
  rewrite app_cons. simpl. exact IH.
Qed.

Lemma replace_from_absent (old new s : string) :
  occurs old s = false -> PyStr.replace_from old new O s = s.
Proof.
  induction s as [|c s IH]; [reflexivity|]. simpl. intros H.
  apply orb_false_elim in H as [H1 H2].
  simpl in H1. rewrite H1. now rewrite IH.
Qed.

Lemma replace_from_leftmost (old a b : string) :
  old <> EmptyString ->
  occurs old (a +:+ but_last old) = false ->
  PyStr.replace_from old EmptyString O (a +:+ old +:+ b)
  = a +:+ PyStr.replace_from old EmptyString O b.
Proof.
  intros Hne. induction a as [|x a IH]; intros Hocc.
  - rewrite !app_empty_l. destruct old as [|c old]; [congruence|].
    rewrite app_cons.
    change (PyStr.replace_from (String c old) EmptyString 0 (String c (old +:+ b)))
      with (if PyStr.startswith (String c old) (String c (old +:+ b))
            then EmptyString +:+
                 PyStr.replace_from (String c old) EmptyString
                   (String.length (String c old) - 1) (old +:+ b)
            else String c (PyStr.replace_from (String c old) EmptyString 0 (old +:+ b))).
    rewrite <- app_cons, startswith_self, app_empty_l.
    replace (String.length (String c old) - 1)%nat with (String.length old)
      by (simpl; lia).
    apply replace_from_skip.
  - rewrite !app_cons in *. simpl in Hocc.
    apply orb_false_elim in Hocc as [H1 H2].
    destruct (but_last_snoc old Hne) as [e He].
    assert (Hsw : PyStr.startswith old (String x (a +:+ old +:+ b)) = false).
    { rewrite He at 2. rewrite app_assoc_str, <- app_assoc_str, <- app_cons.
      rewrite startswith_app; [exact H1|].
      simpl. rewrite length_app_str, but_last_length. lia. }
    simpl. simpl in Hsw. rewrite Hsw. now rewrite IH.
Qed.

Lemma intersperse_before_empty (s : string) :
  PyStr.intersperse_before EmptyString s = s.
Proof.
  induction s as [|c s IH]; [reflexivity|]. simpl. now rewrite app_empty_l, IH.
Qed.

(** ** C2: the local path *)

(** C2, as the specification states it, fails: an occurrence of the base
    path that is not at the start of the file path is removed too. *)
Lemma local_path_removes_inner_occurrence :
  PyStr.startswith "x/" "a/x/b" = false
  /\ local_path "x/" "a/x/b" = "a/b"
  /\ local_path "x/" "a/x/b" <> "a/x/b"
  /\ local_path "x/" "a/x/b" <> spec_local_path "x/" "a/x/b".
Proof. repeat split; vm_compute; discriminate. Qed.

(** C2 (amended): for every file path and every base path, the local path
    is the file path with every occurrence of the base path removed, the
    occurrences being taken from left to right without overlap, wherever
    they stand: a file path in which the base path does not occur is
    unchanged, as is every file path when the base path is empty, and a
    file path [a ++ base ++ b] whose leftmost occurrence of the base path
    starts after [a] gives [a] followed by the local path of [b]. *)
Theorem local_path_removes_every_occurrence (base : string) :
  (forall file_path,
     occurs base file_path = false -> local_path base file_path = file_path)
  /\ (forall file_path,
        base = EmptyString -> local_path base file_path = file_path)
  /\ (forall a b,
        base <> EmptyString ->
        occurs base (a +:+ but_last base) = false ->
        local_path base (a +:+ base +:+ b) = a +:+ local_path base b).
Proof.
  unfold local_path, PyStr.replace. repeat split.
  - intros s H. destruct base; [|now apply replace_from_absent].
    destruct s; discriminate.
  - intros s ->. apply intersperse_before_empty.
  - intros a b Hne Hocc. destruct base as [|c base]; [congruence|].
    now apply replace_from_leftmost.
Qed.

Lemma local_path_removes_every_occurrence_witness :
  local_path "x/" ("a/" +:+ "x/" +:+ "x/b") = "a/" +:+ local_path "x/" "x/b"
  /\ local_path "x/" "y.js" = "y.js".
Proof.
  split.
  - apply (proj2 (proj2 (local_path_removes_every_occurrence "x/"))).
    + discriminate.
    + reflexivity.
  - apply (proj1 (local_path_removes_every_occurrence "x/")). reflexivity.
Defined.

(** When the base path occurs only at the start, the program and the
    specification agree. *)
Lemma local_path_leading_only (base rest : string) :
  occurs base rest = false ->
  local_path base (base +:+ rest) = rest
  /\ spec_local_path base (base +:+ rest) = rest.
Proof.
  intros H. split.
  - destruct base as [|c base]; [destruct rest; discriminate|].
    unfold local_path, PyStr.replace.
    pose proof (replace_from_leftmost (String c base) EmptyString rest) as Hl.
    rewrite !app_empty_l in Hl.
    rewrite Hl; [now apply replace_from_absent | discriminate |].
    clear -c.
    assert (forall p s, (String.length s < String.length p)%nat -> occurs p s = false) as Hshort.
    { intros p s. revert p. induction s as [|d s IHs]; intros p Hlt.
      - destruct p; [simpl in Hlt; lia | reflexivity].
      - simpl. rewrite IHs by (simpl in Hlt; lia). rewrite orb_false_r.
        revert Hlt. generalize (String d s). clear. intros s.
        revert s; induction p as [|a p IH]; intros s Hlt; [simpl in Hlt; lia|].
        destruct s as [|b s]; [reflexivity|]. simpl.
        rewrite IH by (simpl in Hlt; lia). apply andb_false_r. }
    apply Hshort. rewrite but_last_length. simpl. lia.
  - unfold spec_local_path. rewrite startswith_self. clear H.
    induction base as [|c base IH]; [reflexivity|]. exact IH.
Qed.

(** ** C3: the original line *)





(** C3: the specification's own example holds (line 2 of three lines,
    line 5 beyond them), but a line number that is not positive is not
    answered with [N/A]: line 0 of a three-line text yields its last
    line, and line 0 of the empty text raises [IndexError]. *)
Theorem extract_original_line_not_positive :
  let abc := "a" +:+ PyStr.nl +:+ "b" +:+ PyStr.nl +:+ "c" in
  extract_original_line abc 2 = Ok "b"
  /\ extract_original_line abc 5 = Ok "N/A"
  /\ extract_original_line abc 0 = Ok "c"
  /\ extract_original_line abc (-3) = Raise IndexError
  /\ extract_original_line EmptyString 0 = Raise IndexError.
Proof. repeat split; reflexivity. Qed.

(** ** The grouping loop *)

Lemma dd_append_keys (k v : string) (d : Groups) :
  map fst (dd_append k v d)
  = if decide (k ∈ map fst d) then map fst d else map fst d ++ [k].
Proof.
  induction d as [|[k' vs] d IH]; simpl.
  - destruct (decide (k ∈ [])) as [H|H]; [inversion H | reflexivity].
  - destruct (String.eqb_spec k' k) as [->|Hne]; simpl.
    + destruct (decide (k ∈ k :: map fst d)) as [H|H]; [reflexivity|].
      exfalso. apply H. left.
    + rewrite IH. destruct (decide (k ∈ map fst d)) as [H|H].
      * destruct (decide (k ∈ k' :: map fst d)) as [H'|H']; [reflexivity|].
        exfalso. apply H'. now right.
      * destruct (decide (k ∈ k' :: map fst d)) as [H'|H']; [|reflexivity].
        exfalso. apply elem_of_cons in H' as [->|H']; [now apply Hne | now apply H].
Qed.

Lemma dd_append_group (k v key : string) (d : Groups) :
  group key (dd_append k v d)
  = if decide (k = key) then group key d ++ [v] else group key d.
Proof.
  induction d as [|[k' vs] d IH]; simpl.
  - destruct (String.eqb_spec k key) as [->|Hne];
      destruct (decide _) as [H|H]; try reflexivity; congruence.
  - destruct (String.eqb_spec k' k) as [->|Hne]; simpl.
    + destruct (String.eqb_spec k key) as [->|Hne'];
        destruct (decide _) as [H|H]; try reflexivity; congruence.
    + rewrite IH. destruct (String.eqb_spec k' key) as [->|Hne']; [|reflexivity].
      destruct (decide (k = key)) as [H|H]; [congruence | reflexivity].
Qed.

Lemma add_entries_keys (es : list (string * string)) (d : Groups) :
  map fst (fold_left add_entry es d)
  = fold_left (fun acc x => if decide (x ∈ acc) then acc else acc ++ [x])
              (map fst es) (map fst d).
Proof.
  revert d. induction es as [|e es IH]; intros d; [reflexivity|].
  simpl. rewrite IH. unfold add_entry. now rewrite dd_append_keys.
Qed.

Lemma add_entries_group (key : string) (es : list (string * string)) (d : Groups) :
  group key (fold_left add_entry es d) = group key d ++ prompts_of key es.
Proof.
  revert d. induction es as [|e es IH]; intros d.
  - unfold prompts_of. simpl. now rewrite app_nil_r.
  - simpl. rewrite IH. unfold add_entry. rewrite dd_append_group.
    unfold prompts_of. rewrite filter_cons.
    destruct (decide (fst e = key)) as [H|H]; simpl.
    + now rewrite <- app_assoc.
    + reflexivity.
Qed.

(** A key of the dictionary is bound to its group. *)
Lemma group_of_item (k : string) (vs : list string) (d : Groups) :
  NoDup (map fst d) -> (k, vs) ∈ d -> group k d = vs.
Proof.
  induction d as [|[k' vs'] d IH]; intros Hnd Hin; [inversion Hin|].
  simpl in *. apply NoDup_cons in Hnd as [Hk' Hnd].
  apply elem_of_cons in Hin as [Heq|Hin].
  - inversion Heq; subst. now rewrite String.eqb_refl.
  - destruct (String.eqb_spec k' k) as [->|Hne]; [|now apply IH].
    exfalso. apply Hk'. apply list_elem_of_fmap. now exists (k, vs).
Qed.

Lemma first_seen_step_NoDup (names acc : list string) :
  NoDup acc ->
  NoDup (fold_left (fun acc x => if decide (x ∈ acc) then acc else acc ++ [x]) names acc).
Proof.
  revert acc. induction names as [|x names IH]; intros acc Hnd; [exact Hnd|].
  simpl. apply IH. destruct (decide (x ∈ acc)) as [H|H]; [exact Hnd|].
  apply NoDup_app. repeat split; [exact Hnd | | apply NoDup_singleton].
  intros y Hy Hy'. apply list_elem_of_singleton in Hy'. now subst.
Qed.

Lemma first_seen_step_elem (names acc : list string) (y : string) :
  y ∈ fold_left (fun acc x => if decide (x ∈ acc) then acc else acc ++ [x]) names acc
  <-> y ∈ acc \/ y ∈ names.
Proof.
  revert acc. induction names as [|x names IH]; intros acc; simpl.
  - split; [now left | intros [H|H]; [exact H | inversion H]].
  - rewrite IH. destruct (decide (x ∈ acc)) as [H|H].
    + rewrite elem_of_cons. split; [tauto|]. intros [?|[->|?]]; tauto.
    + rewrite elem_of_app, list_elem_of_singleton, elem_of_cons. tauto.
Qed.

Lemma first_seen_NoDup (names : list string) : NoDup (first_seen names).
Proof. apply first_seen_step_NoDup, NoDup_nil_2. Qed.

Lemma elem_of_first_seen (names : list string) (y : string) :
  y ∈ first_seen names <-> y ∈ names.
Proof.
  unfold first_seen. rewrite first_seen_step_elem. split; [|now right].
  intros [H|H]; [inversion H | exact H].
Qed.

(** The distinct names are as many as the set of names has elements. *)
Lemma first_seen_length (names : list string) :
  length (first_seen names) = size (list_to_set names : gset string).
Proof.
  rewrite <- (size_list_to_set (C := gset string) (first_seen names))
    by apply first_seen_NoDup.
  f_equal. apply set_eq. intros y.
  rewrite !elem_of_list_to_set. apply elem_of_first_seen.
Qed.

Lemma for_each_app {A S} (body : A -> S -> Res S) (l1 l2 : list A) (s : S) :
  for_each body (l1 ++ l2) s
  = try s1 <~ for_each body l1 s in for_each body l2 s1.
Proof.
  revert s. induction l1 as [|x l1 IH]; intros s; simpl; [reflexivity|].
  destruct (body x s) as [s'|e]; [apply IH | reflexivity].
Qed.

(** A loop that ends without an exception has run its body without an
    exception on every element. *)
Lemma for_each_ok_each {A S} (body : A -> S -> Res S) (l : list A) (s s' : S) :
  for_each body l s = Ok s' ->
  Forall (fun x => exists s1 s2, body x s1 = Ok s2) l.
Proof.
  revert s. induction l as [|x l IH]; intros s H; [constructor|].
  simpl in H. destruct (body x s) as [s1|e] eqn:E; [|discriminate].
  constructor; [now exists s, s1 | now apply (IH s1)].
Qed.

Lemma process_mutant_skipped (lp src : string) (m : Mutant) (d : Groups) :
  status m <> None -> is_survived m = false -> process_mutant lp src m d = Ok d.
Proof.
  unfold process_mutant, is_survived. destruct (status m) as [s|]; [|congruence].
  intros _ H. simpl. now rewrite H.
Qed.

Lemma process_mutant_survived (lp src : string) (m : Mutant) (d : Groups) :
  is_survived m = true ->
  process_mutant lp src m d
  = try e <~ build_prompt lp src m in Ok (add_entry d e).
Proof.
  unfold process_mutant, is_survived. destruct (status m) as [s|]; [|discriminate].
  intros H. simpl. now rewrite H.
Qed.

Lemma process_mutant_no_status (lp src : string) (m : Mutant) (d : Groups) :
  status m = None -> process_mutant lp src m d = Raise (KeyError "status").
Proof. unfold process_mutant. now intros ->. Qed.

Lemma build_prompt_mutator (lp src : string) (m : Mutant) (e : string * string) :
  build_prompt lp src m = Ok e -> mutatorName m = Some (fst e).
Proof.
  unfold build_prompt.
  destruct (location m) as [loc|]; [|discriminate]. simpl.
  destruct (start loc) as [st|]; [|discriminate]. simpl.
  destruct (line st) as [n|]; [|discriminate]. simpl.
  destruct (extract_original_line src n) as [o|]; [|discriminate]. simpl.
  destruct (mutatorName m) as [k|]; [|discriminate]. simpl.
  intros H. inversion H. reflexivity.
Qed.

(** The inner loop appends, for the surviving mutants of one file entry in
    their order, their prompts to their groups. *)
Lemma process_file_entries (base : string) (item : string * FileData) (d d' : Groups) :
  process_file base item d = Ok d' ->
  exists es,
    Forall2 (fun v e => visit_prompt v = Ok e)
            (filter (fun v => is_survived (v_mutant v)) (file_visits base item)) es
    /\ d' = fold_left add_entry es d.
Proof.
  unfold process_file, file_visits.
  generalize (local_path base (fst item)) as lp.
  generalize (get (source (snd item)) EmptyString) as src.
  generalize (get (mutants (snd item)) []) as ms.
  intros ms src lp. revert d.
  induction ms as [|m ms IH]; intros d H; simpl in *.
  - exists []. split; [constructor | now inversion H].
  - destruct (process_mutant lp src m d) as [d1|err] eqn:E; [|discriminate].
    destruct (IH _ H) as (es & HF & ->).
    rewrite filter_cons. simpl.
    destruct (is_survived m) eqn:Hs.
    + rewrite process_mutant_survived in E by exact Hs.
      destruct (build_prompt lp src m) as [e|] eqn:Eb; [|discriminate].
      inversion E; subst d1.
      destruct (decide _) as [_|Hn]; [|exfalso; now apply Hn].
      exists (e :: es). split; [constructor; [exact Eb | exact HF] | reflexivity].
    + assert (status m <> None) as Hst.
      { intros Hn. rewrite process_mutant_no_status in E by exact Hn. discriminate. }
      rewrite process_mutant_skipped in E by assumption. inversion E; subst d1.
      destruct (decide _) as [Hy|_]; [destruct Hy|].
      exists es. split; [exact HF | reflexivity].
Qed.

(** The two loops together: the prompts of all surviving mutants of the
    report, in traversal order, are appended to their groups. *)
Lemma process_files_entries (base : string) (fs : list (string * FileData)) (d d' : Groups) :
  for_each (process_file base) fs d = Ok d' ->
  exists es,
    Forall2 (fun v e => visit_prompt v = Ok e)
            (filter (fun v => is_survived (v_mutant v)) (flat_map (file_visits base) fs)) es
    /\ d' = fold_left add_entry es d.
Proof.
  revert d. induction fs as [|item fs IH]; intros d H; simpl in *.
  - exists []. split; [constructor | now inversion H].
  - destruct (process_file base item d) as [d1|err] eqn:E; [|discriminate].
    destruct (process_file_entries _ _ _ _ E) as (es1 & HF1 & ->).
    destruct (IH _ H) as (es2 & HF2 & ->).
    exists (es1 ++ es2). split.
    + rewrite filter_app. now apply Forall2_app.
    + now rewrite fold_left_app.
Qed.

Lemma collect_prompts_entries (base : string) (r : Report) (d : Groups) :
  collect_prompts base (JsonObject r) = Ok d ->
  exists es,
    Forall2 (fun v e => visit_prompt v = Ok e) (survivors base r) es
    /\ d = fold_left add_entry es [].
Proof.
  unfold collect_prompts, survivors, traversal.
  destruct (files r) as [fs|]; [|discriminate]. simpl.
  apply process_files_entries.
Qed.

Lemma traversal_mutants (base : string) (r : Report) :
  map v_mutant (traversal base r) = all_mutants r.
Proof.
  unfold traversal, all_mutants.
  induction (get (files r) []) as [|item fs IH]; [reflexivity|].
  simpl. rewrite map_app, IH. f_equal.
  unfold file_visits. rewrite map_map. simpl. apply map_id.
Qed.

Lemma filter_survived_map (vs : list Visit) :
  map v_mutant (filter (fun v => is_survived (v_mutant v)) vs)
  = filter (fun m => is_survived m) (map v_mutant vs).
Proof.
  induction vs as [|v vs IH]; [reflexivity|].
  simpl. rewrite !filter_cons.
  destruct (decide (is_survived (v_mutant v))); simpl; now rewrite IH.
Qed.

(** The mutator names of the prompts are the mutator names of the
    surviving mutants. *)
Lemma entries_names (base : string) (r : Report) (es : list (string * string)) :
  Forall2 (fun v e => visit_prompt v = Ok e) (survivors base r) es ->
  map fst es = survived_mutator_names r.
Proof.
  unfold survived_mutator_names. rewrite <- (traversal_mutants base).
  rewrite <- filter_survived_map. fold (survivors base r).
  induction 1 as [|v e vs es Hv _ IH]; [reflexivity|].
  simpl. apply build_prompt_mutator in Hv.
  unfold visit_prompt in Hv.
  rewrite Hv. simpl. now f_equal.
Qed.



(** ** The writing loop and the whole run *)

Lemma write_all_cons (g : string * list string) (d : Groups) (entries : gmap string string) :
  write_all (g :: d) entries
  = write_all d (<[output_filename (fst g) := PyStr.join separator (snd g)]> entries).
Proof. reflexivity. Qed.

Lemma make_dirs_cons (q : string) (l : list string) (ds : gmap string (gmap string string)) :
  make_dirs (q :: l) ds
  = make_dirs l (match ds !! q with Some _ => ds | None => <[q := ∅]> ds end).
Proof. reflexivity. Qed.

(** The directories after [make_dirs]: those from before, unchanged, and
    the missing ones of the list, empty. *)
Lemma make_dirs_lookup (l : list string) (ds : gmap string (gmap string string))
    (q : string) :
  make_dirs l ds !! q
  = match ds !! q with
    | Some entries => Some entries
    | None => if decide (q ∈ l) then Some ∅ else None
    end.
Proof.
  revert ds. induction l as [|x l IH]; intros ds.
  - simpl. destruct (ds !! q); [reflexivity|].
    destruct (decide (q ∈ [])) as [H|_]; [inversion H | reflexivity].
  - rewrite make_dirs_cons, IH.
    destruct (decide (q = x)) as [->|Hne].
    + destruct (ds !! x) as [e|] eqn:Ex.
      * now rewrite Ex.
      * rewrite lookup_insert_eq.
        destruct (decide (x ∈ x :: l)) as [_|H]; [reflexivity | exfalso; apply H; left].
    + assert ((match ds !! x with Some _ => ds | None => <[x := ∅]> ds end) !! q = ds !! q)
        as -> by (destruct (ds !! x); [reflexivity | now apply lookup_insert_ne]).
      destruct (ds !! q); [reflexivity|].
      destruct (decide (q ∈ l)) as [H|H], (decide (q ∈ x :: l)) as [H'|H'];
        try reflexivity.
      * exfalso. apply H'. now right.
      * exfalso. apply elem_of_cons in H' as [?|?]; [now apply Hne | now apply H].
Qed.

Lemma make_dirs_outcome_none (fault : FsOp -> option Errno) (l : list string)
    (ds ds1 : gmap string (gmap string string)) :
  make_dirs_outcome fault l ds = (None, ds1) -> ds1 = make_dirs l ds.
Proof.
  revert ds. induction l as [|q l IH]; intros ds.
  - simpl. intros H. now inversion H.
  - cbn [make_dirs_outcome]. rewrite make_dirs_cons. destruct (ds !! q); [apply IH|].
    destruct (fault (OpMkdir q)); [discriminate | apply IH].
Qed.

(** Where the file system refuses nothing that is missing, all the
    directories are made. *)
Lemma make_dirs_outcome_allowed (fault : FsOp -> option Errno) (l : list string)
    (ds : gmap string (gmap string string)) :
  (forall q, q ∈ l -> ds !! q = None -> fault (OpMkdir q) = None) ->
  make_dirs_outcome fault l ds = (None, make_dirs l ds).
Proof.
  revert ds. induction l as [|q l IH]; intros ds Hall; [reflexivity|].
  cbn [make_dirs_outcome]. rewrite make_dirs_cons. destruct (ds !! q) as [e|] eqn:Eq.
  - apply IH. intros q' Hq'. apply Hall. now right.
  - rewrite (Hall q) by (left || exact Eq). apply IH.
    intros q' Hq' Hnone. apply Hall; [now right|].
    destruct (decide (q' = q)) as [->|Hne]; [exact Eq|].
    now rewrite lookup_insert_ne in Hnone.
Qed.


Lemma make_dirs_self (l : list string) (q : string) (ds : gmap string (gmap string string))
    (entries : gmap string string) :
  <[q := entries]> (make_dirs (l ++ [q]) ds) = <[q := entries]> (make_dirs l ds).
Proof.
  apply map_eq. intros x. destruct (decide (x = q)) as [->|Hne].
  - now rewrite !lookup_insert_eq.
  - rewrite !lookup_insert_ne by congruence. rewrite !make_dirs_lookup.
    destruct (ds !! x); [reflexivity|].
    destruct (decide (x ∈ l ++ [q])) as [H|H], (decide (x ∈ l)) as [H'|H'];
      try reflexivity.
    + exfalso. apply elem_of_app in H as [?|H]; [now apply H'|].
      apply list_elem_of_singleton in H. now apply Hne.
    + exfalso. apply H. apply elem_of_app. now left.
Qed.

Lemma make_dirs_last (l : list string) (q : string) (ds : gmap string (gmap string string)) :
  default ∅ (make_dirs (l ++ [q]) ds !! q) = default ∅ (ds !! q)
  /\ is_Some (make_dirs (l ++ [q]) ds !! q).
Proof.
  rewrite make_dirs_lookup. destruct (ds !! q); [split; [reflexivity | now eexists]|].
  destruct (decide (q ∈ l ++ [q])) as [_|H]; [split; [reflexivity | now eexists]|].
  exfalso. apply H. apply elem_of_app. right. left.
Qed.

Lemma write_groups_outcome_none (fault : string -> option Errno) (d : Groups)
    (entries es : gmap string string) :
  write_groups_outcome fault d entries = (None, es) ->
  es = write_all d entries
  /\ Forall (fun g => fault (output_filename (fst g)) = None) d.
Proof.
  revert entries. induction d as [|g d IH]; intros entries; simpl.
  - intros H. inversion H. split; [reflexivity | constructor].
  - destruct (fault (output_filename (fst g))) eqn:Ef; [discriminate|].
    intros H. destruct (IH _ H) as [-> Hall]. split; [reflexivity | now constructor].
Qed.

Lemma write_groups_outcome_allowed (fault : string -> option Errno) (d : Groups)
    (entries : gmap string string) :
  Forall (fun g => fault (output_filename (fst g)) = None) d ->
  write_groups_outcome fault d entries = (None, write_all d entries).
Proof.
  intros H. revert entries. induction H as [|g d Hg _ IH]; intros entries; [reflexivity|].
  simpl. rewrite Hg. apply IH.
Qed.


Lemma world_eta (w : World) :
  {| w_open := w_open w; w_dirs := w_dirs w; w_stdout := w_stdout w; w_fault := w_fault w |}
  = w.
Proof. now destruct w. Qed.

Lemma make_dirs_run (l : list string) (w : World) :
  m_for_each ensure_dir l w
  = match make_dirs_outcome (w_fault w) l (w_dirs w) with
    | (None, ds) =>
        (Ok tt, {| w_open := w_open w; w_dirs := ds; w_stdout := w_stdout w;
                   w_fault := w_fault w |})
    | (Some errno, ds) =>
        (Raise (OSError errno),
         {| w_open := w_open w; w_dirs := ds; w_stdout := w_stdout w;
            w_fault := w_fault w |})
    end.
Proof.
  revert w. induction l as [|q l IH]; intros w.
  - simpl. unfold m_ret. now rewrite world_eta.
  - cbn [m_for_each make_dirs_outcome]. unfold m_bind, ensure_dir at 1.
    destruct (w_dirs w !! q) as [e|]; [apply IH|].
    destruct (w_fault w (OpMkdir q)); [now rewrite world_eta|].
    now rewrite IH.
Qed.

Lemma write_groups_run (output_dir : string) (d : Groups) (w : World)
    (entries : gmap string string) :
  w_dirs w !! output_dir = Some entries ->
  m_for_each (write_group output_dir) d w
  = match write_groups_outcome (fun name => w_fault w (OpWrite output_dir name)) d entries with
    | (None, es) =>
        (Ok tt, {| w_open := w_open w; w_dirs := <[output_dir := es]> (w_dirs w);
                   w_stdout := w_stdout w; w_fault := w_fault w |})
    | (Some errno, es) =>
        (Raise (OSError errno),
         {| w_open := w_open w; w_dirs := <[output_dir := es]> (w_dirs w);
            w_stdout := w_stdout w; w_fault := w_fault w |})
    end.
Proof.
  revert w entries. induction d as [|g d IH]; intros w entries Hdir.
  - simpl. unfold m_ret. rewrite insert_id by exact Hdir. now rewrite world_eta.
  - cbn [m_for_each write_groups_outcome]. unfold m_bind, write_group at 1, write_text.
    rewrite Hdir.
    destruct (w_fault w (OpWrite output_dir (output_filename (fst g)))).
    + rewrite insert_id by exact Hdir. now rewrite world_eta.
    + rewrite (IH _ (<[output_filename (fst g) := PyStr.join separator (snd g)]> entries))
        by (simpl; apply lookup_insert_eq).
      cbn [w_open w_dirs w_stdout w_fault].
      destruct (write_groups_outcome _ d _) as [[errno|] es];
        now rewrite insert_insert_eq.
Qed.

(** The run, case by case. *)
Lemma generate_prompts_by_mutator_cases
    (report_path output_dir base : string) (w : World) :
  generate_prompts_by_mutator report_path output_dir base w
  = match w_open w report_path with
    | NoSuchFile => (Raise FileNotFoundError, w)
    | NotJson => (Raise JSONDecodeError, w)
    | Json v =>
        match collect_prompts base v with
        | Raise e => (Raise e, w)
        | Ok d =>
            match files_outcome (w_fault w) output_dir d (w_dirs w) with
            | (None, ds) =>
                (Ok PyNone,
                 {| w_open := w_open w;
                    w_dirs := ds;
                    w_stdout := w_stdout w ++ [summary (length d) output_dir];
                    w_fault := w_fault w |})
            | (Some errno, ds) =>
                (Raise (OSError errno),
                 {| w_open := w_open w;
                    w_dirs := ds;
                    w_stdout := w_stdout w;
                    w_fault := w_fault w |})
            end
        end
    end.
Proof.
  unfold generate_prompts_by_mutator, m_bind at 1, json_load.
  destruct (w_open w report_path) as [| |v]; try reflexivity.
  unfold m_bind at 1, m_lift.
  destruct (collect_prompts base v) as [d|e]; [|reflexivity].
  unfold m_bind at 1, mkdir, files_outcome. rewrite make_dirs_run.
  destruct (make_dirs_outcome (w_fault w) (ancestors output_dir ++ [output_dir]) (w_dirs w))
    as [[errno|] ds1] eqn:Hmk; [reflexivity|].
  apply make_dirs_outcome_none in Hmk. subst ds1.
  destruct (make_dirs_last (ancestors output_dir) output_dir (w_dirs w)) as [_ [es0 Hes0]].
  unfold m_bind at 1.
  rewrite (write_groups_run _ _ _ es0) by exact Hes0.
  cbn [w_open w_dirs w_stdout w_fault]. rewrite Hes0. simpl.
  destruct (write_groups_outcome _ d es0) as [[errno|] es]; reflexivity.
Qed.

(** Lines 61 to 64 when nothing is refused. *)
Lemma files_outcome_none (fault : FsOp -> option Errno) (output_dir : string)
    (d : Groups) (ds ds' : gmap string (gmap string string)) :
  files_outcome fault output_dir d ds = (None, ds') ->
  ds' = <[output_dir := write_all d (default ∅ (ds !! output_dir))]>
          (make_dirs (ancestors output_dir) ds).
Proof.
  unfold files_outcome.
  destruct (make_dirs_outcome fault (ancestors output_dir ++ [output_dir]) ds)
    as [[errno|] ds1] eqn:Hmk; [discriminate|].
  apply make_dirs_outcome_none in Hmk. subst ds1.
  destruct (make_dirs_last (ancestors output_dir) output_dir ds) as [Hdef _].
  rewrite Hdef.
  destruct (write_groups_outcome _ d _) as [[errno|] es] eqn:Hw; [discriminate|].
  apply write_groups_outcome_none in Hw as [-> _].
  intros H. inversion H. apply make_dirs_self.
Qed.

Lemma forallb_elem {A} (f : A -> bool) (l : list A) (x : A) :
  forallb f l = true -> x ∈ l -> f x = true.
Proof.
  intros H Hx. rewrite forallb_forall in H. apply H. now apply list_elem_of_In.
Qed.

Lemma files_outcome_allowed (w : World) (output_dir : string) (d : Groups) :
  mkdir_allowed w output_dir = true ->
  writes_allowed w output_dir (map (fun g => output_filename (fst g)) d) = true ->
  files_outcome (w_fault w) output_dir d (w_dirs w)
  = (None, <[output_dir := write_all d (default ∅ (w_dirs w !! output_dir))]>
             (make_dirs (ancestors output_dir) (w_dirs w))).
Proof.
  intros Hmk Hwr. unfold files_outcome.
  rewrite make_dirs_outcome_allowed.
  - destruct (make_dirs_last (ancestors output_dir) output_dir (w_dirs w)) as [Hdef _].
    rewrite Hdef, write_groups_outcome_allowed.
    + now rewrite make_dirs_self.
    + apply Forall_forall. intros g Hg.
      assert (output_filename (fst g) ∈ map (fun g => output_filename (fst g)) d) as Hin
        by (apply list_elem_of_fmap; now exists g).
      pose proof (forallb_elem _ _ _ Hwr Hin) as H. simpl in H.
      now destruct (w_fault w (OpWrite output_dir (output_filename (fst g)))).
  - intros q Hq Hnone. pose proof (forallb_elem _ _ _ Hmk Hq) as H. simpl in H.
    rewrite Hnone in H. now destruct (w_fault w (OpMkdir q)).
Qed.


Lemma make_dirs_present (l : list string) (ds : gmap string (gmap string string)) :
  Forall (fun q => is_Some (ds !! q)) l -> make_dirs l ds = ds.
Proof.
  induction 1 as [|q l [e Hq] _ IH]; [reflexivity|].
  now rewrite make_dirs_cons, Hq.
Qed.



Lemma last_cons_some {A} (x y : A) (l : list A) :
  last l = Some y -> last (x :: l) = Some y.
Proof. destruct l; [discriminate | now simpl]. Qed.

(** A file of the directory holds what the last group with its name
    wrote, and what it held before when no group has its name. *)
Lemma write_all_lookup (d : Groups) (entries : gmap string string) (f : string) :
  write_all d entries !! f
  = match last (filter (fun g => output_filename (fst g) = f) d) with
    | Some g => Some (PyStr.join separator (snd g))
    | None => entries !! f
    end.
Proof.
  revert entries. induction d as [|g d IH]; intros entries; [reflexivity|].
  rewrite write_all_cons, IH, filter_cons.
  destruct (last (filter (fun g0 => output_filename (fst g0) = f) d)) as [g'|] eqn:El.
  - destruct (decide (output_filename (fst g) = f)).
    + now rewrite (last_cons_some _ g') by exact El.
    + now rewrite El.
  - apply last_None in El. rewrite El.
    destruct (decide (output_filename (fst g) = f)) as [<-|Hne]; simpl.
    + apply lookup_insert_eq.
    + now apply lookup_insert_ne.
Qed.

Lemma write_all_dom (d : Groups) (entries : gmap string string) :
  dom (write_all d entries)
  = dom entries ∪ list_to_set (map (fun g => output_filename (fst g)) d).
Proof.
  revert entries. induction d as [|g d IH]; intros entries.
  - unfold write_all. simpl. now rewrite (right_id_L ∅ (∪)).
  - rewrite write_all_cons, IH, dom_insert_L. simpl.
    rewrite (comm_L (∪) {[output_filename (fst g)]} (dom entries)).
    now rewrite (assoc_L (∪)).
Qed.



(** ** Well-formed reports are processed without an exception *)





(** ** C4: the result of the run *)






(** A well-formed report with a mutator name of 250 letters on a file
    system that limits names to 255 bytes: the file name has 262 bytes,
    so after the directory has been created and the file of the first
    group written, the second write is refused; the run raises [OSError]
    and prints nothing. *)
Example long_mutator_name_run :
  let w := with_report "report.json" long_name_report limited_world in
  let name := output_filename (string_repeat "a" 250) in
  well_formed long_name_report = true
  /\ utf8_length name = 262%nat
  /\ w_fault w (OpWrite "out" name) = Some ENAMETOOLONG
  /\ outcome (generate_prompts_by_mutator "report.json" "out" "x/" w)
     = (Raise (OSError ENAMETOOLONG),
        {["out" := {["foo_prompts.txt" := foo_prompt]}]}, []).
Proof. repeat split. Qed.

(** ** C5: a malformed report *)

(** C5: when the content of the report file is not valid JSON, or is a
    JSON object without the key [files], the run raises an exception and
    leaves the world as it was: the output directory is not created and no
    file is written. *)
Theorem malformed_report_writes_nothing
    (report_path output_dir base : string) (w : World) :
  (w_open w report_path = NotJson ->
   generate_prompts_by_mutator report_path output_dir base w
   = (Raise JSONDecodeError, w))
  /\ (forall r,
        w_open w report_path = Json (JsonObject r) -> files r = None ->
        generate_prompts_by_mutator report_path output_dir base w
        = (Raise (KeyError "files"), w)).
Proof.
  split.
  - intros H. now rewrite generate_prompts_by_mutator_cases, H.
  - intros r H Hf. rewrite generate_prompts_by_mutator_cases, H.
    unfold collect_prompts. now rewrite Hf.
Qed.

Lemma malformed_report_writes_nothing_witness :
  let w := with_report "report.json" {| files := None |} blank_world in
  generate_prompts_by_mutator "report.json" "out" "x/" w
  = (Raise (KeyError "files"), w)
  /\ w_dirs w !! "out" = None.
Proof.
  split; [|reflexivity].
  apply (proj2 (malformed_report_writes_nothing "report.json" "out" "x/"
                  (with_report "report.json" {| files := None |} blank_world))
           {| files := None |}); reflexivity.
Defined.

(** ** C6: the end-to-end example *)

Lemma foo_report_groups :
  collect_prompts "x/" (JsonObject foo_report) = Ok [("Foo", [foo_prompt])].
Proof. reflexivity. Qed.

(** C6: for the report with the one file entry [x/y.js], source
    [let a = 1;] and one surviving mutant at line 1 with mutator name
    [Foo] and no replacement, processed with the base path [x/], the run
    writes exactly one file, [foo_prompts.txt], whose content is the one
    prompt with File [y.js], Line 1, Mutator [Foo], Original Code
    [let a = 1;] and Mutated Code [N/A]; this on a file system that lets
    the output directory be created and that file be written. *)
Theorem end_to_end_foo (report_path output_dir : string) (w : World) :
  w_open w report_path = Json (JsonObject foo_report) ->
  mkdir_allowed w output_dir = true ->
  w_fault w (OpWrite output_dir "foo_prompts.txt") = None ->
  exists w',
    generate_prompts_by_mutator report_path output_dir "x/" w = (Ok PyNone, w')
    /\ w_dirs w'
       = <[output_dir := <["foo_prompts.txt" := foo_prompt]>
                           (default ∅ (w_dirs w !! output_dir))]>
           (make_dirs (ancestors output_dir) (w_dirs w))
    /\ file_content output_dir "foo_prompts.txt" w' = Some foo_prompt
    /\ (w_dirs w !! output_dir = None ->
        w_dirs w' !! output_dir = Some {["foo_prompts.txt" := foo_prompt]})
    /\ prompt_text "y.js" 1 "Foo" "let a = 1;" "N/A" = foo_prompt.
Proof.
  intros Hopen Hmk Hwr.
  rewrite generate_prompts_by_mutator_cases, Hopen, foo_report_groups.
  rewrite files_outcome_allowed;
    [|exact Hmk | unfold writes_allowed; simpl;
                  change (output_filename "Foo") with "foo_prompts.txt"; now rewrite Hwr].
  eexists. split; [reflexivity|]. cbn [w_dirs].
  change (write_all [("Foo", [foo_prompt])] (default ∅ (w_dirs w !! output_dir)))
    with (<["foo_prompts.txt" := foo_prompt]> (default ∅ (w_dirs w !! output_dir))).
  repeat split.
  - unfold file_content. cbn [w_dirs]. rewrite lookup_insert_eq.
    apply lookup_insert_eq.
  - intros Hnone. rewrite Hnone. simpl. rewrite lookup_insert_eq. reflexivity.
Qed.

Lemma end_to_end_foo_witness :
  let w := with_report "report.json" foo_report blank_world in
  exists w',
    generate_prompts_by_mutator "report.json" "out" "x/" w = (Ok PyNone, w')
    /\ w_dirs w' = {["out" := {["foo_prompts.txt" := foo_prompt]}]}.
Proof.
  destruct (end_to_end_foo "report.json" "out"
              (with_report "report.json" foo_report blank_world)
              eq_refl eq_refl eq_refl)
    as (w' & Hrun & Hdirs & _).
  exists w'. split; [exact Hrun|]. rewrite Hdirs. reflexivity.
Defined.

(** ** The content of the files after a run *)

Lemma filter_keys (P : string -> Prop) `{forall k, Decision (P k)} (d : Groups) :
  filter P (map fst d) = map fst (filter (fun g => P (fst g)) d).
Proof.
  induction d as [|g d IH]; [reflexivity|].
  simpl. rewrite !filter_cons. destruct (decide (P (fst g))); simpl; now rewrite IH.
Qed.

(** The file [name] holds the prompts of the group that wrote it last. *)
Lemma written_file (d : Groups) (entries : gmap string string) (name k : string) :
  NoDup (map fst d) ->
  last_writer name (map fst d) = Some k ->
  write_all d entries !! name = Some (PyStr.join separator (group k d)).
Proof.
  intros Hnd Hlast. unfold last_writer in Hlast.
  rewrite filter_keys, fmap_last in Hlast.
  rewrite write_all_lookup.
  destruct (last (filter (fun g => output_filename (fst g) = name) d)) as [g|] eqn:El;
    [|discriminate].
  simpl in Hlast. inversion Hlast; subst k.
  apply last_Some_elem_of in El. apply list_elem_of_filter in El as [_ Hin].
  destruct g as [k vs]. simpl. now rewrite (group_of_item k vs d).
Qed.

Lemma last_writer_exists (name : string) (names : list string) (k : string) :
  k ∈ names -> output_filename k = name ->
  exists k', last_writer name names = Some k'
             /\ k' ∈ names /\ output_filename k' = name.
Proof.
  intros Hin Hname. unfold last_writer.
  destruct (last (filter (fun k0 => output_filename k0 = name) names)) as [k'|] eqn:El.
  - exists k'. split; [reflexivity|].
    apply last_Some_elem_of in El. now apply list_elem_of_filter in El as [? ?].
  - apply last_None in El.
    assert (k ∈ filter (fun k0 => output_filename k0 = name) names) as Hk
      by now apply list_elem_of_filter.
    rewrite El in Hk. inversion Hk.
Qed.

(** What a run that ends without an exception has done. *)
Lemma successful_run (report_path output_dir base : string) (w w' : World) (v : PyValue) :
  generate_prompts_by_mutator report_path output_dir base w = (Ok v, w') ->
  exists r es,
    w_open w report_path = Json (JsonObject r)
    /\ Forall2 (fun vis e => visit_prompt vis = Ok e) (survivors base r) es
    /\ collect_prompts base (JsonObject r) = Ok (fold_left add_entry es [])
    /\ v = PyNone
    /\ w_dirs w'
       = <[output_dir := write_all (fold_left add_entry es [])
                                   (default ∅ (w_dirs w !! output_dir))]>
           (make_dirs (ancestors output_dir) (w_dirs w))
    /\ w_stdout w'
       = w_stdout w ++ [summary (length (first_seen (map fst es))) output_dir]
    /\ w_open w' = w_open w
    /\ w_fault w' = w_fault w
    /\ files_outcome (w_fault w) output_dir (fold_left add_entry es []) (w_dirs w)
       = (None, w_dirs w').
Proof.
  rewrite generate_prompts_by_mutator_cases.
  destruct (w_open w report_path) as [| |[r|]]; try discriminate.
  destruct (collect_prompts base (JsonObject r)) as [d|] eqn:Hd; [|discriminate].
  destruct (files_outcome (w_fault w) output_dir d (w_dirs w)) as [[errno|] ds] eqn:Hf;
    [discriminate|].
  intros H. inversion H; subst. clear H.
  destruct (collect_prompts_entries _ _ _ Hd) as (es & HF & ->).
  exists r, es. repeat split; try assumption; cbn [w_dirs w_stdout].
  - exact (files_outcome_none _ _ _ _ _ Hf).
  - now rewrite <- (length_map fst), add_entries_keys.
Qed.

(** [join] is the concatenation with a separator of the Standard
    Library, and the separator of line 64 is the one the specification
    spells out. *)
Lemma join_concat (sep : string) (l : list string) :
  PyStr.join sep l = String.concat sep l.
Proof.
  induction l as [|p [|q l] IH]; [reflexivity | reflexivity |].
  change (PyStr.join sep (p :: q :: l)) with (p +:+ sep +:+ PyStr.join sep (q :: l)).
  now rewrite IH.
Qed.

Lemma joined_spec (prompts : list string) :
  PyStr.join separator prompts = spec_joined prompts.
Proof. unfold spec_joined. now rewrite join_concat. Qed.

Lemma entries_groups_keys (es : list (string * string)) :
  map fst (fold_left add_entry es []) = first_seen (map fst es).
Proof. apply add_entries_keys. Qed.

Lemma entries_groups_group (k : string) (es : list (string * string)) :
  group k (fold_left add_entry es []) = prompts_of k es.
Proof. now rewrite add_entries_group. Qed.

(** ** C7: the order of the prompts *)




(** The joined text ends with the last prompt: no separator follows it. *)
Lemma join_snoc (sep p : string) (ps : list string) :
  ps <> [] -> PyStr.join sep (ps ++ [p]) = PyStr.join sep ps +:+ sep +:+ p.
Proof.
  induction ps as [|q ps IH]; [congruence|]. intros _.
  destruct ps as [|q' ps]; [reflexivity|].
  change (PyStr.join sep ((q :: q' :: ps) ++ [p]))
    with (q +:+ sep +:+ PyStr.join sep ((q' :: ps) ++ [p])).
  rewrite IH by discriminate.
  change (PyStr.join sep (q :: q' :: ps)) with (q +:+ sep +:+ PyStr.join sep (q' :: ps)).
  now rewrite !app_assoc_str.
Qed.

(** ** C8: mutants that did not survive *)

Lemma process_mutant_not_survived (lp src s : string) (m : Mutant) (d : Groups) :
  status m = Some s -> s <> "Survived" -> process_mutant lp src m d = Ok d.
Proof.
  intros Hs Hne. apply process_mutant_skipped; [congruence|].
  unfold is_survived. rewrite Hs. now apply String.eqb_neq.
Qed.

Lemma for_each_skip {A S} (body : A -> S -> Res S) (l1 l2 : list A) (x : A) (s : S) :
  (forall s1, body x s1 = Ok s1) ->
  for_each body (l1 ++ x :: l2) s = for_each body (l1 ++ l2) s.
Proof.
  intros Hx. rewrite !for_each_app.
  destruct (for_each body l1 s) as [s1|e]; [|reflexivity].
  simpl. now rewrite Hx.
Qed.

Lemma collect_prompts_skip (base : string) (m : Mutant)
    (before : list (string * FileData)) (path : string) (src : option string)
    (ms1 ms2 : list Mutant) (after : list (string * FileData)) :
  (forall lp s d, process_mutant lp s m d = Ok d) ->
  collect_prompts base (JsonObject (report_around before path src (ms1 ++ m :: ms2) after))
  = collect_prompts base (JsonObject (report_around before path src (ms1 ++ ms2) after)).
Proof.
  intros Hm. unfold collect_prompts, report_around. simpl.
  rewrite !for_each_app.
  destruct (for_each (process_file base) before []) as [d|e]; [|reflexivity].
  simpl. unfold process_file at 1 3. simpl.
  rewrite for_each_skip by (intros d1; apply Hm). reflexivity.
Qed.

Lemma with_report_open (path : string) (r : Report) (w : World) :
  w_open (with_report path r w) path = Json (JsonObject r).
Proof. unfold with_report. simpl. now rewrite String.eqb_refl. Qed.

(** The outcome of a run depends on the report only through the groups
    the loops collect. *)
Lemma outcome_by_groups (path output_dir base : string) (r1 r2 : Report) (w : World) :
  collect_prompts base (JsonObject r1) = collect_prompts base (JsonObject r2) ->
  outcome (generate_prompts_by_mutator path output_dir base (with_report path r1 w))
  = outcome (generate_prompts_by_mutator path output_dir base (with_report path r2 w)).
Proof.
  intros H. rewrite !generate_prompts_by_mutator_cases, !with_report_open, H.
  destruct (collect_prompts base (JsonObject r2)) as [d|e]; [|reflexivity].
  unfold with_report. cbn [w_fault w_dirs w_stdout w_open].
  now destruct (files_outcome (w_fault w) output_dir d (w_dirs w)) as [[errno|] ds].
Qed.

(** C8: a mutant whose status is a string other than [Survived] is
    skipped whatever its other fields hold; no prompt is made for it, and
    the groups, the files written, the summary and the result of the run
    are those of the report without that mutant. *)
Theorem non_survived_mutant_contributes_nothing (m : Mutant) (s : string) :
  status m = Some s -> s <> "Survived" ->
  (forall lp src d, process_mutant lp src m d = Ok d)
  /\ (forall base before path src ms1 ms2 after,
        collect_prompts base
          (JsonObject (report_around before path src (ms1 ++ m :: ms2) after))
        = collect_prompts base
            (JsonObject (report_around before path src (ms1 ++ ms2) after)))
  /\ (forall report_path output_dir base w before path src ms1 ms2 after,
        outcome (generate_prompts_by_mutator report_path output_dir base
                   (with_report report_path
                      (report_around before path src (ms1 ++ m :: ms2) after) w))
        = outcome (generate_prompts_by_mutator report_path output_dir base
                     (with_report report_path
                        (report_around before path src (ms1 ++ ms2) after) w))).
Proof.
  intros Hs Hne.
  assert (forall lp src d, process_mutant lp src m d = Ok d) as Hskip
    by (intros; now apply (process_mutant_not_survived _ _ s)).
  repeat split.
  - exact Hskip.
  - intros. now apply collect_prompts_skip.
  - intros. apply outcome_by_groups. now apply collect_prompts_skip.
Qed.

Lemma non_survived_mutant_contributes_nothing_witness :
  outcome (generate_prompts_by_mutator "report.json" "out" "x/"
             (with_report "report.json"
                (report_around [] "x/y.js" (Some "let a = 1;")
                   ([survived_mutant 1 "Foo"] ++ bare_mutant (Some "survived") :: [])
                   []) blank_world))
  = outcome (generate_prompts_by_mutator "report.json" "out" "x/"
               (with_report "report.json"
                  (report_around [] "x/y.js" (Some "let a = 1;")
                     ([survived_mutant 1 "Foo"] ++ []) []) blank_world)).
Proof.
  apply (proj2 (proj2 (non_survived_mutant_contributes_nothing
                         (bare_mutant (Some "survived")) "survived"
                         eq_refl ltac:(discriminate)))).
Defined.

(** ** C9: mutator names that share a file name *)

Lemma lookup_map {A B} (f : A -> B) (l : list A) (i : nat) :
  map f l !! i = f <$> (l !! i).
Proof. exact (list_lookup_fmap f l i). Qed.

Lemma entries_unique (vs : list Visit) (es es' : list (string * string)) :
  Forall2 (fun vis e => visit_prompt vis = Ok e) vs es ->
  Forall2 (fun vis e => visit_prompt vis = Ok e) vs es' ->
  es = es'.
Proof.
  intros H. revert es'. induction H as [|vis e vs es He _ IH]; intros es' H'.
  - now inversion H'.
  - inversion H' as [|? e' ? es'' He' Hrest]; subst.
    rewrite He in He'. inversion He'; subst. f_equal. now apply IH.
Qed.




(** The sample report with the names [Foo] and [foo]: two groups, one
    file, which holds the one prompt of [foo]. *)
Example collision_report_run :
  let w := with_report "report.json" collision_report blank_world in
  let w' := snd (generate_prompts_by_mutator "report.json" "out" EmptyString w) in
  first_seen (survived_mutator_names collision_report) = ["Foo"; "foo"]
  /\ output_filename "Foo" = output_filename "foo"
  /\ w_dirs w' !! "out"
     = Some {["foo_prompts.txt" :=
               prompt_text "y.js" 2 "foo" "let b = 2;" "N/A"]}
  /\ w_stdout w' = ["Generated prompts for 2 mutators in 'out'"].
Proof. repeat split. Qed.

(** ** C10: the status field *)

Lemma elem_of_all_mutants (r : Report) (m : Mutant) :
  m ∈ all_mutants r ->
  exists fs item, files r = Some fs /\ item ∈ fs /\ m ∈ get (mutants (snd item)) [].
Proof.
  unfold all_mutants. intros H. apply list_elem_of_In, in_flat_map in H as (item & Hitem & Hm).
  destruct (files r) as [fs|]; [|destruct Hitem].
  exists fs, item. repeat split; now apply list_elem_of_In.
Qed.

(** A report with a mutant that has no status is not processed to the
    end. *)
Lemma collect_prompts_no_status (base : string) (r : Report) (m : Mutant) :
  m ∈ all_mutants r -> status m = None ->
  exists e, collect_prompts base (JsonObject r) = Raise e.
Proof.
  intros Hin Hst.
  destruct (collect_prompts base (JsonObject r)) as [d|e] eqn:Hd; [|now exists e].
  exfalso.
  destruct (elem_of_all_mutants _ _ Hin) as (fs & item & Hfs & Hitem & Hm).
  unfold collect_prompts in Hd. rewrite Hfs in Hd. simpl in Hd.
  apply for_each_ok_each in Hd. rewrite Forall_forall in Hd.
  destruct (Hd _ Hitem) as (d1 & d2 & Hfile).
  unfold process_file in Hfile. apply for_each_ok_each in Hfile.
  rewrite Forall_forall in Hfile.
  destruct (Hfile _ Hm) as (d3 & d4 & Hmut).
  rewrite process_mutant_no_status in Hmut by exact Hst. discriminate.
Qed.

(** C10: a mutant record without the [status] key makes the loop body
    raise [KeyError] for that key, and a report that contains such a
    record aborts the run with an exception and without any output; a
    mutant whose status is present and is not [Survived] is skipped before
    any other key is read, so it may lack [location], [replacement] and
    [mutatorName] without any exception. *)
Theorem status_is_the_only_mandatory_key_of_a_skipped_mutant :
  (forall m lp src d,
     status m = None -> process_mutant lp src m d = Raise (KeyError "status"))
  /\ (forall lp src ms1 m ms2 d d1,
        status m = None ->
        for_each (process_mutant lp src) ms1 d = Ok d1 ->
        for_each (process_mutant lp src) (ms1 ++ m :: ms2) d
        = Raise (KeyError "status"))
  /\ (forall report_path output_dir base w r m,
        w_open w report_path = Json (JsonObject r) ->
        m ∈ all_mutants r -> status m = None ->
        exists e,
          generate_prompts_by_mutator report_path output_dir base w = (Raise e, w))
  /\ (forall s loc repl name lp src d,
        s <> "Survived" ->
        process_mutant lp src
          {| status := Some s; location := loc; replacement := repl;
             mutatorName := name |} d
        = Ok d).
Proof.
  repeat split.
  - intros. now apply process_mutant_no_status.
  - intros lp src ms1 m ms2 d d1 Hst Hms1.
    rewrite for_each_app, Hms1. simpl. now rewrite process_mutant_no_status.
  - intros report_path output_dir base w r m Hopen Hin Hst.
    rewrite generate_prompts_by_mutator_cases, Hopen.
    destruct (collect_prompts_no_status base r m Hin Hst) as [e ->]. now exists e.
  - intros s loc repl name lp src d Hne.
    now apply (process_mutant_not_survived _ _ s).
Qed.

Lemma status_is_the_only_mandatory_key_of_a_skipped_mutant_witness :
  let w := with_report "report.json" (foo_report_with (bare_mutant None)) blank_world in
  (exists e, generate_prompts_by_mutator "report.json" "out" "x/" w = (Raise e, w))
  /\ process_mutant "y.js" "let a = 1;" (bare_mutant (Some "Killed")) [] = Ok [].
Proof.
  destruct status_is_the_only_mandatory_key_of_a_skipped_mutant
    as (_ & _ & Hrun & Hskip).
  split.
  - apply (Hrun "report.json" "out" "x/" _ (foo_report_with (bare_mutant None))
             (bare_mutant None)).
    + reflexivity.
    + right. left.
    + reflexivity.
  - apply (Hskip "Killed" None None None). discriminate.
Defined.

(** The sample report with a mutant without status: the run raises
    [KeyError] for that key and the output directory is not created. *)
Example missing_status_run :
  let w := with_report "report.json" (foo_report_with (bare_mutant None)) blank_world in
  outcome (generate_prompts_by_mutator "report.json" "out" "x/" w)
  = (Raise (KeyError "status"), ∅, [])
  /\ outcome (generate_prompts_by_mutator "report.json" "out" "x/"
                (with_report "report.json"
                   (foo_report_with (bare_mutant (Some "Killed"))) blank_world))
     = outcome (generate_prompts_by_mutator "report.json" "out" "x/"
                  (with_report "report.json" foo_report blank_world)).
Proof. split; reflexivity. Qed.

(** * Further properties of the program *)

(** ** The report locator *)

Lemma node_at_app (tree : Node) (p q : Path) :
  node_at tree (p ++ q)
  = match node_at tree p with
    | Some n => node_at n q
    | None => None
    end.
Proof.
  revert tree. induction p as [|c p IH]; intros tree; [reflexivity|].
  simpl. destruct (child tree c) as [n|]; [apply IH | reflexivity].
Qed.

Lemma entry_named_elem (name : string) (entries : list (string * Node)) (n : Node) :
  entry_named name entries = Some n -> (name, n) ∈ entries.
Proof.
  induction entries as [|[k m] entries IH]; [discriminate|]. simpl.
  destruct (String.eqb_spec k name) as [->|_].
  - intros H. inversion H. left.
  - intros H. right. now apply IH.
Qed.

(** A subdirectory that holds a report is among the listed ones. *)
Lemma report_dir_listed (tree : Node) (base_dir : Path) (name : string) :
  path_exists tree (report_in (base_dir ++ [name])) = true ->
  path_exists tree base_dir = true
  /\ (base_dir ++ [name]) ∈ glob_dirs tree base_dir.
Proof.
  unfold path_exists, report_in, glob_dirs.
  rewrite <- app_assoc, node_at_app.
  destruct (node_at tree base_dir) as [n|]; [|discriminate].
  simpl. destruct (child n name) as [n'|] eqn:Hc; [|discriminate].
  destruct n' as [|sub]; [discriminate|]. intros _. split; [reflexivity|].
  destruct n as [|entries]; [discriminate|]. simpl in Hc.
  apply entry_named_elem in Hc.
  apply list_elem_of_fmap. exists (name, DirNode sub). split; [reflexivity|].
  apply list_elem_of_filter. now split.
Qed.

Lemma glob_dirs_shape (tree : Node) (base_dir p : Path) :
  p ∈ glob_dirs tree base_dir -> exists name, p = base_dir ++ [name].
Proof.
  unfold glob_dirs. destruct (node_at tree base_dir) as [[|entries]|];
    try (intros H; now inversion H).
  intros H. apply list_elem_of_fmap in H as (e & -> & _). now exists (fst e).
Qed.

Lemma path_name_snoc (p : Path) (name : string) : path_name (p ++ [name]) = name.
Proof. unfold path_name. now rewrite last_snoc. Qed.

Lemma insert_desc_perm {A} (key : A -> string) (x : A) (l : list A) :
  insert_desc key x l ≡ₚ x :: l.
Proof.
  induction l as [|y l IH]; [reflexivity|]. simpl.
  destruct (String.leb (key y) (key x)); [reflexivity|].
  rewrite IH. apply Permutation_swap.
Qed.

(** Sorting keeps the elements. *)
Lemma sorted_desc_perm {A} (key : A -> string) (l : list A) :
  sorted_desc key l ≡ₚ l.
Proof.
  induction l as [|x l IH]; [reflexivity|].
  unfold sorted_desc in *. simpl. now rewrite insert_desc_perm, IH.
Qed.

Lemma leb_trans (a b c : string) :
  String.leb a b = true -> String.leb b c = true -> String.leb a c = true.
Proof.
  intros H1 H2. apply Is_true_true. apply Is_true_true in H1, H2.
  exact (transitivity (R := String.le) H1 H2).
Qed.

Lemma insert_desc_sorted {A} (key : A -> string) (x : A) (l : list A) :
  StronglySorted (fun a b => String.leb (key b) (key a) = true) l ->
  StronglySorted (fun a b => String.leb (key b) (key a) = true) (insert_desc key x l).
Proof.
  induction 1 as [|y l Hs IH Hy]; simpl.
  - repeat constructor.
  - destruct (String.leb (key y) (key x)) eqn:E.
    + constructor; [now constructor|]. constructor; [exact E|].
      eapply Forall_impl; [exact Hy|]. intros z Hz. simpl in Hz.
      now apply (leb_trans _ (key y)).
    + constructor; [exact IH|].
      rewrite insert_desc_perm. constructor; [|exact Hy].
      destruct (String.leb_total (key y) (key x)) as [H|H]; [congruence | exact H].
Qed.

(** Sorting puts the greater names first. *)
Lemma sorted_desc_sorted {A} (key : A -> string) (l : list A) :
  StronglySorted (fun a b => String.leb (key b) (key a) = true) (sorted_desc key l).
Proof.
  induction l as [|x l IH]; [constructor|].
  unfold sorted_desc in *. simpl. now apply insert_desc_sorted.
Qed.

Lemma first_report_none (tree : Node) (subdirs : list Path) :
  first_report tree subdirs = None
  <-> forall s, s ∈ subdirs -> path_exists tree (report_in s) = false.
Proof.
  induction subdirs as [|s subdirs IH]; simpl.
  - split; [intros _ s H; inversion H | reflexivity].
  - destruct (path_exists tree (report_in s)) eqn:E.
    + split; [discriminate|]. intros H. specialize (H s). rewrite E in H.
      assert (true = false) by (apply H; left). discriminate.
    + rewrite IH. split.
      * intros H s' Hs'. apply elem_of_cons in Hs' as [->|Hs']; [exact E | now apply H].
      * intros H s' Hs'. apply H. now right.
Qed.

Lemma first_report_some (tree : Node) (subdirs : list Path) (r : Path) :
  first_report tree subdirs = Some r ->
  exists l1 s l2,
    subdirs = l1 ++ s :: l2 /\ r = report_in s
    /\ path_exists tree r = true
    /\ forall s', s' ∈ l1 -> path_exists tree (report_in s') = false.
Proof.
  induction subdirs as [|s subdirs IH]; [discriminate|]. simpl.
  destruct (path_exists tree (report_in s)) eqn:E.
  - intros H. inversion H; subst r. exists [], s, subdirs.
    repeat split; [exact E|]. intros s' Hs'. inversion Hs'.
  - intros H. destruct (IH H) as (l1 & s0 & l2 & -> & -> & Hex & Hbefore).
    exists (s :: l1), s0, l2. repeat split; [exact Hex|].
    intros s' Hs'. apply elem_of_cons in Hs' as [->|Hs']; [exact E | now apply Hbefore].
Qed.

(** The loop returns the report of the greatest listed name that has one. *)
Lemma first_report_greatest (tree : Node) (l : list Path) (r s' : Path) :
  first_report tree (sorted_desc path_name l) = Some r ->
  s' ∈ l -> path_exists tree (report_in s') = true ->
  exists s, s ∈ l /\ r = report_in s
            /\ String.leb (path_name s') (path_name s) = true.
Proof.
  intros Hr Hs' Hex.
  destruct (first_report_some _ _ _ Hr) as (l1 & s & l2 & Hsplit & -> & _ & Hbefore).
  pose proof (sorted_desc_sorted path_name l) as Hsorted.
  pose proof (sorted_desc_perm path_name l) as Hperm.
  rewrite Hsplit in Hsorted, Hperm.
  exists s. split; [rewrite <- Hperm; apply elem_of_app; right; left|].
  split; [reflexivity|].
  rewrite <- Hperm in Hs'. apply elem_of_app in Hs' as [Hin|Hin].
  - specialize (Hbefore _ Hin). congruence.
  - apply elem_of_cons in Hin as [->|Hin].
    + destruct (String.leb_total (path_name s) (path_name s)); assumption.
    + apply StronglySorted_app_1_r, StronglySorted_cons in Hsorted as [Hall _].
      rewrite Forall_forall in Hall. now apply Hall.
Qed.

Lemma report_in_not_default (base_dir : Path) (name : string) :
  report_in (base_dir ++ [name]) <> default_report.
Proof.
  intros H. apply (f_equal length) in H.
  unfold report_in, default_report in H. rewrite !length_app in H. simpl in H. lia.
Qed.

Lemma no_listed_report (tree : Node) (base_dir : Path) :
  (forall name, path_exists tree (report_in (base_dir ++ [name])) = false) ->
  first_report tree (sorted_desc path_name (glob_dirs tree base_dir)) = None.
Proof.
  intros Hnone. apply first_report_none. intros s Hs.
  rewrite sorted_desc_perm in Hs.
  destruct (glob_dirs_shape _ _ _ Hs) as [name ->]. apply Hnone.
Qed.

Lemma locator_answer (tree : Node) (base_dir p : Path) :
  get_latest_report_path tree base_dir = Ok p ->
  path_exists tree p = true
  /\ (p = default_report
      \/ exists name,
           p = report_in (base_dir ++ [name])
           /\ (base_dir ++ [name]) ∈ glob_dirs tree base_dir).
Proof.
  unfold get_latest_report_path.
  destruct (path_exists tree base_dir) eqn:Hbase.
  - destruct (first_report tree (sorted_desc path_name (glob_dirs tree base_dir)))
      as [r|] eqn:Hr.
    + intros H. inversion H; subst p.
      destruct (first_report_some _ _ _ Hr) as (l1 & s & l2 & Hsplit & -> & Hex & _).
      split; [exact Hex|]. right.
      assert (s ∈ glob_dirs tree base_dir) as Hs.
      { rewrite <- (sorted_desc_perm path_name), Hsplit.
        apply elem_of_app. right. left. }
      destruct (glob_dirs_shape _ _ _ Hs) as [name ->]. now exists name.
    + change fallback_report with default_report.
      destruct (path_exists tree default_report) eqn:Hd; [|discriminate].
      intros H. inversion H; subst p. split; [exact Hd | now left].
  - change fallback_report with default_report.
    destruct (path_exists tree default_report) eqn:Hd; [|discriminate].
    intros H. inversion H; subst p. split; [exact Hd | now left].
Qed.

(** X1: The path the locator answers exists, and it is either the report of
    a directory directly below the base directory or the default report. *)
Theorem located_report_exists (tree : Node) (base_dir p : Path) :
  get_latest_report_path tree base_dir = Ok p ->
  path_exists tree p = true
  /\ (p = default_report
      \/ exists name,
           p = report_in (base_dir ++ [name])
           /\ (base_dir ++ [name]) ∈ glob_dirs tree base_dir).
Proof. apply locator_answer. Qed.

Lemma located_report_exists_witness :
  path_exists sample_tree ["StrykerOutput"; "2024-03-01"; "coverage"; "stryker.json"] = true
  /\ (["StrykerOutput"; "2024-03-01"; "coverage"; "stryker.json"] = default_report
      \/ exists name,
           ["StrykerOutput"; "2024-03-01"; "coverage"; "stryker.json"]
           = report_in (["StrykerOutput"] ++ [name])
           /\ (["StrykerOutput"] ++ [name]) ∈ glob_dirs sample_tree ["StrykerOutput"]).
Proof.
  exact (located_report_exists sample_tree ["StrykerOutput"]
           ["StrykerOutput"; "2024-03-01"; "coverage"; "stryker.json"] eq_refl).
Defined.

Lemma locator_latest (tree : Node) (base_dir : Path) (name' : string) :
  path_exists tree (report_in (base_dir ++ [name'])) = true ->
  exists name,
    get_latest_report_path tree base_dir = Ok (report_in (base_dir ++ [name]))
    /\ String.leb name' name = true.
Proof.
  intros Hex. destruct (report_dir_listed _ _ _ Hex) as [Hbase Hlisted].
  unfold get_latest_report_path. rewrite Hbase.
  destruct (first_report tree (sorted_desc path_name (glob_dirs tree base_dir)))
    as [r|] eqn:Hr.
  - destruct (first_report_greatest _ _ _ _ Hr Hlisted Hex) as (s & Hs & -> & Hle).
    destruct (glob_dirs_shape _ _ _ Hs) as [name ->].
    exists name. split; [reflexivity|]. now rewrite !path_name_snoc in Hle.
  - exfalso. rewrite first_report_none in Hr.
    rewrite (Hr (base_dir ++ [name'])) in Hex; [discriminate|].
    now rewrite sorted_desc_perm.
Qed.

(** X2: When a directory directly below the base directory holds a report,
    the locator answers the report of such a directory, never the default
    one, and no directory with a report has a greater name than the one
    chosen. *)
Theorem latest_subdirectory_wins (tree : Node) (base_dir : Path) (name' : string) :
  path_exists tree (report_in (base_dir ++ [name'])) = true ->
  exists name,
    get_latest_report_path tree base_dir = Ok (report_in (base_dir ++ [name]))
    /\ String.leb name' name = true.
Proof. apply locator_latest. Qed.

Lemma latest_subdirectory_wins_witness :
  exists name,
    get_latest_report_path sample_tree ["StrykerOutput"]
    = Ok (report_in (["StrykerOutput"] ++ [name]))
    /\ String.leb "2024-01-05" name = true.
Proof.
  exact (latest_subdirectory_wins sample_tree ["StrykerOutput"] "2024-01-05" eq_refl).
Defined.

Lemma locator_raises (tree : Node) (base_dir : Path) :
  path_exists tree default_report = false ->
  (forall name, path_exists tree (report_in (base_dir ++ [name])) = false) ->
  get_latest_report_path tree base_dir = Raise FileNotFoundError.
Proof.
  intros Hd Hnone. unfold get_latest_report_path.
  change fallback_report with default_report.
  rewrite (no_listed_report _ _ Hnone), Hd.
  now destruct (path_exists tree base_dir).
Qed.

(** X3: The locator raises exactly when neither the default report nor a
    report in a directory directly below the base directory exists, and
    what it raises then is [FileNotFoundError]. *)
Theorem no_report_found_iff (tree : Node) (base_dir : Path) (e : PyError) :
  get_latest_report_path tree base_dir = Raise e
  <-> e = FileNotFoundError
      /\ path_exists tree default_report = false
      /\ forall name, path_exists tree (report_in (base_dir ++ [name])) = false.
Proof.
  split.
  - intros Hraise. repeat split.
    + unfold get_latest_report_path in Hraise.
      change fallback_report with default_report in Hraise.
      destruct (if path_exists tree base_dir then _ else None); [discriminate|].
      destruct (path_exists tree default_report); [discriminate|]. now inversion Hraise.
    + unfold get_latest_report_path in Hraise.
      change fallback_report with default_report in Hraise.
      destruct (if path_exists tree base_dir then _ else None); [discriminate|].
      destruct (path_exists tree default_report); [discriminate | reflexivity].
    + intros name. destruct (path_exists tree (report_in (base_dir ++ [name]))) eqn:Hex;
        [|reflexivity].
      destruct (locator_latest _ _ _ Hex) as (n & Hok & _). congruence.
  - intros (-> & Hd & Hnone). now apply locator_raises.
Qed.

Lemma no_report_found_iff_witness :
  get_latest_report_path (DirNode [("StrykerOutput", FileNode)]) ["StrykerOutput"]
  = Raise FileNotFoundError
  /\ path_exists (DirNode [("StrykerOutput", FileNode)]) ["StrykerOutput"] = true.
Proof.
  split; [|reflexivity].
  apply (proj2 (no_report_found_iff (DirNode [("StrykerOutput", FileNode)])
                  ["StrykerOutput"] FileNotFoundError)).
  repeat split.
Defined.

(** X4: The locator answers the default report exactly when that report
    exists and no directory directly below the base directory holds one;
    a base directory that is missing, is a plain file or is empty is such
    a case. *)
Theorem default_report_iff (tree : Node) (base_dir : Path) :
  get_latest_report_path tree base_dir = Ok default_report
  <-> path_exists tree default_report = true
      /\ forall name, path_exists tree (report_in (base_dir ++ [name])) = false.
Proof.
  split.
  - intros Hok. split.
    + now destruct (locator_answer _ _ _ Hok) as [Hex _].
    + intros name. destruct (path_exists tree (report_in (base_dir ++ [name]))) eqn:Hex;
        [|reflexivity].
      destruct (locator_latest _ _ _ Hex) as (n & Hok' & _).
      rewrite Hok in Hok'. inversion Hok' as [Heq]. symmetry in Heq.
      now apply report_in_not_default in Heq.
  - intros (Hd & Hnone). unfold get_latest_report_path.
    rewrite (no_listed_report _ _ Hnone), Hd.
    now destruct (path_exists tree base_dir).
Qed.

Lemma default_report_iff_witness :
  get_latest_report_path
    (DirNode [("coverage", DirNode [("stryker.json", FileNode)])]) ["StrykerOutput"]
  = Ok default_report.
Proof.
  apply (proj2 (default_report_iff
                  (DirNode [("coverage", DirNode [("stryker.json", FileNode)])])
                  ["StrykerOutput"])).
  split; [reflexivity|]. intros name. reflexivity.
Defined.

Lemma first_report_ext (tree tree' : Node) (subdirs : list Path) :
  (forall p, path_exists tree p = path_exists tree' p) ->
  first_report tree subdirs = first_report tree' subdirs.
Proof.
  intros Hext. induction subdirs as [|s subdirs IH]; [reflexivity|].
  simpl. now rewrite Hext, IH.
Qed.

(** Listings that hold the same directories are sorted into the same
    sequence, whatever their order. *)
Lemma sorted_listing_unique (tree tree' : Node) (base_dir : Path) :
  glob_dirs tree base_dir ≡ₚ glob_dirs tree' base_dir ->
  sorted_desc path_name (glob_dirs tree base_dir)
  = sorted_desc path_name (glob_dirs tree' base_dir).
Proof.
  intros Hperm.
  apply (StronglySorted_unique_strong
           (fun a b => String.leb (path_name b) (path_name a) = true)).
  - intros x1 x2 Hx1 Hx2 H12 H21.
    rewrite sorted_desc_perm in Hx1, Hx2.
    destruct (glob_dirs_shape _ _ _ Hx1) as [n1 ->].
    destruct (glob_dirs_shape _ _ _ Hx2) as [n2 ->].
    rewrite !path_name_snoc in H12, H21.
    now rewrite (String.leb_antisym _ _ H12 H21).
  - apply sorted_desc_sorted.
  - apply sorted_desc_sorted.
  - now rewrite !sorted_desc_perm.
Qed.

(** X5: The answer of the locator does not depend on the order in which the
    base directory lists its entries: two trees with the same existing
    paths and the same directories below the base directory, listed in any
    order, give the same answer. *)
Theorem listing_order_irrelevant (tree tree' : Node) (base_dir : Path) :
  (forall p, path_exists tree p = path_exists tree' p) ->
  glob_dirs tree base_dir ≡ₚ glob_dirs tree' base_dir ->
  get_latest_report_path tree base_dir = get_latest_report_path tree' base_dir.
Proof.
  intros Hext Hperm. unfold get_latest_report_path.
  rewrite (sorted_listing_unique _ _ _ Hperm), (first_report_ext _ _ _ Hext).
  now rewrite !Hext.
Qed.

Lemma listing_order_irrelevant_witness :
  get_latest_report_path listed_old_first []
  = get_latest_report_path listed_new_first [].
Proof.
  apply listing_order_irrelevant.
  - intros [|c p]; [reflexivity|].
    unfold path_exists, listed_old_first, listed_new_first.
    cbn [node_at child entry_named].
    destruct (String.eqb "2024-01-05" c), (String.eqb "2024-03-01" c); reflexivity.
  - apply Permutation_swap.
Defined.

(** ** The script as a program *)

Lemma path_str_report (name : string) :
  path_str (report_in (["StrykerOutput"] ++ [name]))
  = "StrykerOutput/" +:+ name +:+ "/coverage/stryker.json".
Proof. reflexivity. Qed.

(** X6: When a dated directory below [StrykerOutput] holds a report, the
    program processes the report of the dated directory with the greatest
    name, writes to [stryker_prompts_by_mutator] and strips the working
    directory followed by a slash. *)
Theorem main_reads_latest_report (cwd : string) (tree : Node) (name' : string) :
  path_exists tree (report_in (["StrykerOutput"] ++ [name'])) = true ->
  exists name,
    String.leb name' name = true
    /\ path_exists tree (report_in (["StrykerOutput"] ++ [name])) = true
    /\ forall w,
         main cwd tree w
         = generate_prompts_by_mutator
             ("StrykerOutput/" +:+ name +:+ "/coverage/stryker.json")
             "stryker_prompts_by_mutator" (cwd +:+ "/") w.
Proof.
  intros Hex. destruct (locator_latest _ _ _ Hex) as (name & Hok & Hle).
  exists name. split; [exact Hle|]. split.
  - now destruct (locator_answer _ _ _ Hok) as [H _].
  - intros w. unfold main, m_bind, m_lift. rewrite Hok. now rewrite path_str_report.
Qed.

Lemma main_reads_latest_report_witness :
  exists name,
    String.leb "2024-01-05" name = true
    /\ path_exists sample_tree (report_in (["StrykerOutput"] ++ [name])) = true
    /\ forall w,
         main "/home/dev/app" sample_tree w
         = generate_prompts_by_mutator
             ("StrykerOutput/" +:+ name +:+ "/coverage/stryker.json")
             "stryker_prompts_by_mutator" ("/home/dev/app" +:+ "/") w.
Proof.
  exact (main_reads_latest_report "/home/dev/app" sample_tree "2024-01-05" eq_refl).
Defined.

(** X7: Without any report the program raises [FileNotFoundError] and leaves
    the world as it was: the output directory is not created and nothing
    is printed. *)
Theorem main_without_report (cwd : string) (tree : Node) (w : World) :
  path_exists tree default_report = false ->
  (forall name, path_exists tree (report_in (["StrykerOutput"] ++ [name])) = false) ->
  main cwd tree w = (Raise FileNotFoundError, w).
Proof.
  intros Hd Hnone. unfold main, m_bind, m_lift.
  now rewrite (locator_raises tree ["StrykerOutput"] Hd Hnone).
Qed.

Lemma main_without_report_witness :
  main "/home/dev/app" (DirNode [("StrykerOutput", DirNode []); ("src", DirNode [])])
       blank_world
  = (Raise FileNotFoundError, blank_world).
Proof.
  apply main_without_report; [reflexivity|]. intros name. reflexivity.
Defined.

(** ** Exceptions and what a run leaves untouched *)










Lemma for_each_unchanged {A S} (body : A -> S -> Res S) (l : list A) (s : S) :

  Forall (fun x => forall s1, body x s1 = Ok s1) l -> for_each body l s = Ok s.
Proof.
  induction 1 as [|x l Hx _ IH]; [reflexivity|]. simpl. now rewrite Hx.
Qed.

Lemma process_file_unchanged (base : string) (item : string * FileData) (d : Groups) :
  Forall not_survived (get (mutants (snd item)) []) ->
  process_file base item d = Ok d.
Proof.
  intros H. unfold process_file. apply for_each_unchanged.
  eapply Forall_impl; [exact H|]. intros m (s & Hs & Hne) d1.
  now apply (process_mutant_not_survived _ _ s).
Qed.

Lemma all_mutants_items (r : Report) (fs : list (string * FileData)) :
  files r = Some fs ->
  Forall not_survived (all_mutants r) ->
  Forall (fun item => Forall not_survived (get (mutants (snd item)) [])) fs.
Proof.
  unfold all_mutants. intros -> H. simpl in H.
  induction fs as [|item fs IH]; [constructor|].
  simpl in H. apply Forall_app in H as [H1 H2]. constructor; [exact H1 | now apply IH].
Qed.

(** X10: A report in which every mutant has a status other than [Survived]
    is processed without an exception on a file system that lets the
    output directory be created: the output directory exists afterwards,
    created empty with its missing parents when it was absent and with its
    files untouched otherwise, and the summary line counts 0 mutators. *)
Theorem no_survivor_writes_no_file
    (report_path output_dir base : string) (w : World) (r : Report) :
  w_open w report_path = Json (JsonObject r) ->
  is_Some (files r) ->
  Forall not_survived (all_mutants r) ->
  mkdir_allowed w output_dir = true ->
  generate_prompts_by_mutator report_path output_dir base w
  = (Ok PyNone,
     {| w_open := w_open w;
        w_dirs := <[output_dir := default ∅ (w_dirs w !! output_dir)]>
                    (make_dirs (ancestors output_dir) (w_dirs w));
        w_stdout := w_stdout w
                    ++ ["Generated prompts for 0 mutators in '" +:+ output_dir +:+ "'"];
        w_fault := w_fault w |}).
Proof.
  intros Hopen [fs Hfs] Hall Hmk.
  rewrite generate_prompts_by_mutator_cases, Hopen.
  assert (collect_prompts base (JsonObject r) = Ok []) as ->.
  { unfold collect_prompts. rewrite Hfs. simpl. apply for_each_unchanged.
    eapply Forall_impl; [exact (all_mutants_items _ _ Hfs Hall)|].
    intros item Hitem d. now apply process_file_unchanged. }
  rewrite (files_outcome_allowed w output_dir [] Hmk eq_refl). reflexivity.
Qed.

Lemma no_survivor_writes_no_file_witness :
  let w := with_report "report.json" killed_report blank_world in
  outcome (generate_prompts_by_mutator "report.json" "a/out" "x/" w)
  = (Ok PyNone, {["a" := ∅; "a/out" := ∅]},
     ["Generated prompts for 0 mutators in 'a/out'"]).
Proof.
  intros w.
  rewrite (no_survivor_writes_no_file "report.json" "a/out" "x/" w killed_report).
  - reflexivity.
  - reflexivity.
  - now eexists.
  - repeat constructor; eexists; (split; [reflexivity | discriminate]).
  - reflexivity.
Defined.

(** Writing the same groups a second time changes nothing. *)
Lemma write_all_idempotent (d : Groups) (entries : gmap string string) :
  write_all d (write_all d entries) = write_all d entries.
Proof.
  apply map_eq. intros name. rewrite (write_all_lookup d (write_all d entries)).
  rewrite (write_all_lookup d entries).
  now destruct (last (filter (fun g => output_filename (fst g) = name) d)).
Qed.

(** What nothing refused the first time, nothing refuses the second
    time, and the directories stay as the first time left them. *)
Lemma files_outcome_again (fault : FsOp -> option Errno) (output_dir : string)
    (d : Groups) (ds ds' : gmap string (gmap string string)) :
  files_outcome fault output_dir d ds = (None, ds') ->
  files_outcome fault output_dir d ds' = (None, ds').
Proof.
  intros H. pose proof (files_outcome_none _ _ _ _ _ H) as Hds'.
  unfold files_outcome in H |- *.
  destruct (make_dirs_outcome fault (ancestors output_dir ++ [output_dir]) ds)
    as [[errno|] ds1] eqn:Hmk; [discriminate|].
  apply make_dirs_outcome_none in Hmk. subst ds1.
  destruct (write_groups_outcome _ d (default ∅ (make_dirs _ ds !! output_dir)))
    as [[errno|] es] eqn:Hw; [discriminate|].
  apply write_groups_outcome_none in Hw as [_ Hwr]. clear H.
  assert (Forall (fun q => is_Some (ds' !! q)) (ancestors output_dir ++ [output_dir]))
    as Hpresent.
  { apply Forall_forall. intros q Hq. subst ds'.
    destruct (decide (q = output_dir)) as [->|Hne];
      [rewrite lookup_insert_eq; now eexists|].
    rewrite lookup_insert_ne by congruence. rewrite make_dirs_lookup.
    destruct (ds !! q); [now eexists|].
    apply elem_of_app in Hq as [Hq|Hq].
    - destruct (decide (q ∈ ancestors output_dir)); [now eexists | contradiction].
    - apply list_elem_of_singleton in Hq. contradiction. }
  rewrite make_dirs_outcome_allowed.
  - rewrite (make_dirs_present _ _ Hpresent).
    rewrite (write_groups_outcome_allowed _ _ _ Hwr). f_equal.
    rewrite Hds' at 1. rewrite lookup_insert_eq. simpl.
    rewrite write_all_idempotent. rewrite Hds' at 1.
    rewrite insert_insert_eq. now symmetry.
  - intros q Hq Hnone. rewrite Forall_forall in Hpresent.
    destruct (Hpresent q Hq) as [e He]. congruence.
Qed.

(** X11: A second run on the same report and output directory ends like the
    first and leaves every directory exactly as the first run left it; it
    only prints the summary line once more. *)
Theorem rerun_changes_no_file
    (report_path output_dir base : string) (w w1 : World) (v : PyValue) :
  generate_prompts_by_mutator report_path output_dir base w = (Ok v, w1) ->
  exists w2 line,
    generate_prompts_by_mutator report_path output_dir base w1 = (Ok v, w2)
    /\ w_dirs w2 = w_dirs w1
    /\ w_stdout w1 = w_stdout w ++ [line]
    /\ w_stdout w2 = w_stdout w1 ++ [line].
Proof.
  rewrite !generate_prompts_by_mutator_cases.
  destruct (w_open w report_path) as [| |rv] eqn:Hopen; try discriminate.
  destruct (collect_prompts base rv) as [d|] eqn:Hd; [|discriminate].
  destruct (files_outcome (w_fault w) output_dir d (w_dirs w)) as [[errno|] ds] eqn:Hf;
    [discriminate|].
  intros H. inversion H; subst. clear H. cbn [w_open w_dirs w_stdout w_fault].
  rewrite Hopen, Hd, (files_outcome_again _ _ _ _ _ Hf).
  eexists _, _. split; [reflexivity|]. cbn [w_dirs w_stdout]. now repeat split.
Qed.

Lemma rerun_changes_no_file_witness :
  let w := with_report "report.json" collision_report blank_world in
  let w1 := snd (generate_prompts_by_mutator "report.json" "out" EmptyString w) in
  exists w2 line,
    generate_prompts_by_mutator "report.json" "out" EmptyString w1 = (Ok PyNone, w2)
    /\ w_dirs w2 = w_dirs w1
    /\ w_stdout w1 = w_stdout w ++ [line]
    /\ w_stdout w2 = w_stdout w1 ++ [line].
Proof.
  exact (rerun_changes_no_file "report.json" "out" EmptyString
           (with_report "report.json" collision_report blank_world)
           (snd (generate_prompts_by_mutator "report.json" "out" EmptyString
                   (with_report "report.json" collision_report blank_world)))
           PyNone eq_refl).
Defined.

(** X12: A run that ends without an exception leaves every directory
    other than the output directory as it was, except that it makes,
    empty, the parents of the output directory that were missing; and in
    the output directory it leaves every file alone whose name is not the
    file name of a surviving mutator: files of earlier runs are not
    removed. *)
Theorem run_touches_only_group_files
    (report_path output_dir base : string) (w w' : World) (v : PyValue) :
  generate_prompts_by_mutator report_path output_dir base w = (Ok v, w') ->
  exists r,
    w_open w report_path = Json (JsonObject r)
    /\ (forall dir, dir <> output_dir ->
          w_dirs w' !! dir
          = match w_dirs w !! dir with
            | Some entries => Some entries
            | None => if decide (dir ∈ ancestors output_dir) then Some ∅ else None
            end)
    /\ (forall name,
          (forall k, k ∈ survived_mutator_names r -> output_filename k <> name) ->
          file_content output_dir name w' = file_content output_dir name w).
Proof.
  intros Hrun.
  destruct (successful_run _ _ _ _ _ _ Hrun) as (r & es & Hopen & HF & Hd & _ & Hdirs & _).
  exists r. split; [exact Hopen|]. split.
  - intros dir Hdir. rewrite Hdirs, lookup_insert_ne by congruence.
    apply make_dirs_lookup.
  - intros name Hname. unfold file_content. rewrite Hdirs, lookup_insert_eq.
    rewrite write_all_lookup.
    destruct (last (filter (fun g => output_filename (fst g) = name)
                      (fold_left add_entry es []))) as [g|] eqn:El.
    + exfalso. apply last_Some_elem_of, list_elem_of_filter in El as [Hg Hin].
      apply (Hname (fst g)); [|exact Hg].
      rewrite <- (entries_names _ _ _ HF). apply elem_of_first_seen.
      rewrite <- entries_groups_keys. apply list_elem_of_fmap. now exists g.
    + now destruct (w_dirs w !! output_dir).
Qed.

Lemma run_touches_only_group_files_witness :
  let w := {| w_open := fun _ => Json (JsonObject foo_report);
              w_dirs := {["a/out" := {["stale_prompts.txt" := "old"]};
                          "b" := {["notes.txt" := "n"]}]};
              w_stdout := [];
              w_fault := fun _ => None |} in
  let w' := snd (generate_prompts_by_mutator "report.json" "a/out" "x/" w) in
  file_content "a/out" "stale_prompts.txt" w' = Some "old"
  /\ w_dirs w' !! "a" = Some ∅
  /\ w_dirs w' !! "b" = Some {["notes.txt" := "n"]}
  /\ w_dirs w' !! "c" = None.
Proof.
  intros w w'.
  destruct (run_touches_only_group_files "report.json" "a/out" "x/" w w'
              PyNone eq_refl) as (r & Hopen & Hdirs & Hfiles).
  assert (r = foo_report) as -> by now inversion Hopen.
  split; [|split; [|split]].
  - rewrite Hfiles; [reflexivity|].
    intros k Hk. change (survived_mutator_names foo_report) with ["Foo"] in Hk.
    apply list_elem_of_singleton in Hk as ->. discriminate.
  - rewrite Hdirs by discriminate. reflexivity.
  - rewrite Hdirs by discriminate. reflexivity.
  - rewrite Hdirs by discriminate. reflexivity.
Defined.

(** ** Groups and prompts *)

Lemma string_filter_app (keep : ascii -> bool) (a b : string) :
  string_filter keep (a +:+ b) = string_filter keep a +:+ string_filter keep b.
Proof.
  induction a as [|c a IH]; [reflexivity|]. rewrite app_cons. simpl.
  destruct (keep c); [now rewrite app_cons, IH | exact IH].
Qed.

Lemma string_filter_none (keep drop : ascii -> bool) (s : string) :
  (forall c, keep c = true -> drop c = false) ->
  string_filter drop (string_filter keep s) = EmptyString.
Proof.
  intros H. induction s as [|c s IH]; [reflexivity|]. simpl.
  destruct (keep c) eqn:E; [|exact IH]. simpl. now rewrite (H c E).
Qed.

Lemma occurs_char_filter (keep : ascii -> bool) (c : ascii) (s : string) :
  keep c = true ->
  occurs (String c EmptyString) s = true ->
  occurs (String c EmptyString) (string_filter keep s) = true.
Proof.
  intros Hc. induction s as [|x s IH]; [discriminate|].
  simpl. destruct (Ascii.eqb_spec c x) as [<-|Hne].
  - intros _. rewrite Hc. simpl. now rewrite Ascii.eqb_refl.
  - simpl. intros H. specialize (IH H).
    destruct (keep x); [|exact IH]. simpl. rewrite IH. apply orb_true_r.
Qed.

Lemma lower_char_idempotent (c : ascii) :
  PyStr.lower_char (PyStr.lower_char c) = PyStr.lower_char c.
Proof.
  destruct c as [[] [] [] [] [] [] [] []]; reflexivity.
Qed.

Lemma lower_char_word (c : ascii) :
  PyStr.is_word (PyStr.lower_char c) = PyStr.is_word c.
Proof.
  destruct c as [[] [] [] [] [] [] [] []]; reflexivity.
Qed.

Lemma lower_filter_word (s : string) :
  PyStr.lower (string_filter PyStr.is_word (PyStr.lower s))
  = string_filter PyStr.is_word (PyStr.lower s).
Proof.
  induction s as [|c s IH]; [reflexivity|]. simpl.
  destruct (PyStr.is_word (PyStr.lower_char c)); [|exact IH].
  simpl. now rewrite lower_char_idempotent, IH.
Qed.

Lemma lower_app (a b : string) : PyStr.lower (a +:+ b) = PyStr.lower a +:+ PyStr.lower b.
Proof.
  induction a as [|c a IH]; [reflexivity|]. rewrite app_cons. simpl.
  now rewrite app_cons, IH.
Qed.

Lemma output_filename_filter (mutator : string) :
  output_filename mutator
  = string_filter PyStr.is_word (PyStr.lower mutator) +:+ "_prompts.txt".
Proof.
  unfold output_filename, PyStr.re_sub_nonword. now rewrite re_sub_nonword_from_delete.
Qed.

(** X13: The name of an output file is a plain file name: apart from the dot
    of its extension it consists of word characters only, so it holds no
    slash and the file is written directly into the output directory; and
    it is in lower case. *)
Theorem output_filename_is_plain (mutator : string) :
  string_filter (fun c => negb (PyStr.is_word c)) (output_filename mutator) = "."
  /\ occurs "/" (output_filename mutator) = false
  /\ PyStr.lower (output_filename mutator) = output_filename mutator.
Proof.
  assert (string_filter (fun c => negb (PyStr.is_word c)) (output_filename mutator) = ".")
    as Hdot.
  { rewrite (output_filename_filter mutator), string_filter_app.
    rewrite string_filter_none; [reflexivity|]. now intros c ->. }
  repeat split.
  - exact Hdot.
  - destruct (occurs "/" (output_filename mutator)) eqn:E; [|reflexivity].
    apply (occurs_char_filter (fun c => negb (PyStr.is_word c))) in E; [|reflexivity].
    rewrite Hdot in E. discriminate.
  - rewrite (output_filename_filter mutator), lower_app, lower_filter_word. reflexivity.
Qed.

Lemma dd_append_total (k v : string) (d : Groups) :
  length (concat (map snd (dd_append k v d))) = S (length (concat (map snd d))).
Proof.
  induction d as [|[k' vs] d IH]; [reflexivity|]. simpl.
  destruct (String.eqb k' k); simpl; rewrite !length_app.
  - simpl. lia.
  - rewrite IH. lia.
Qed.

Lemma dd_append_nonempty (k v : string) (d : Groups) :
  Forall (fun g => snd g <> []) d ->
  Forall (fun g => snd g <> []) (dd_append k v d).
Proof.
  induction 1 as [|[k' vs] d Hg Hd IH]; simpl.
  - constructor; [discriminate | constructor].
  - destruct (String.eqb k' k).
    + constructor; [|assumption]. simpl. intros H. now apply app_eq_nil in H as [_ H].
    + now constructor.
Qed.

Lemma add_entries_total (es : list (string * string)) (d : Groups) :
  length (concat (map snd (fold_left add_entry es d)))
  = (length es + length (concat (map snd d)))%nat.
Proof.
  revert d. induction es as [|e es IH]; intros d; [reflexivity|].
  simpl. rewrite IH. unfold add_entry. rewrite dd_append_total. lia.
Qed.

Lemma add_entries_nonempty (es : list (string * string)) (d : Groups) :
  Forall (fun g => snd g <> []) d ->
  Forall (fun g => snd g <> []) (fold_left add_entry es d).
Proof.
  revert d. induction es as [|e es IH]; intros d H; [exact H|].
  simpl. apply IH. now apply dd_append_nonempty.
Qed.

Lemma survivors_count (base : string) (r : Report) :
  length (survivors base r) = length (filter (fun m => is_survived m) (all_mutants r)).
Proof.
  rewrite <- (traversal_mutants base), <- filter_survived_map. now rewrite length_map.
Qed.

(** X14: The grouping loses and invents nothing: when the loops end without an
    exception the groups hold, all together, exactly one prompt for each
    mutant whose status is [Survived], and no group is empty. *)
Theorem one_prompt_per_survivor (base : string) (r : Report) (d : Groups) :
  collect_prompts base (JsonObject r) = Ok d ->
  length (concat (map snd d))
  = length (filter (fun m => is_survived m) (all_mutants r))
  /\ Forall (fun g => snd g <> []) d.
Proof.
  intros Hd. destruct (collect_prompts_entries _ _ _ Hd) as (es & HF & ->). split.
  - rewrite add_entries_total. simpl. rewrite Nat.add_0_r.
    rewrite <- (survivors_count base). symmetry. now apply Forall2_length in HF.
  - apply add_entries_nonempty. constructor.
Qed.

Lemma one_prompt_per_survivor_witness :
  exists d,
    collect_prompts EmptyString (JsonObject collision_report) = Ok d
    /\ length (concat (map snd d)) = 3%nat
    /\ Forall (fun g => snd g <> []) d.
Proof.
  eexists. split; [reflexivity|].
  exact (one_prompt_per_survivor EmptyString collision_report _ eq_refl).
Defined.

Lemma elem_of_prompts_of (k p : string) (es : list (string * string)) :
  p ∈ prompts_of k es <-> (k, p) ∈ es.
Proof.
  unfold prompts_of. rewrite list_elem_of_fmap. split.
  - intros ([k' p'] & -> & Hin). apply list_elem_of_filter in Hin as [Hk Hin].
    simpl in Hk. now subst.
  - intros Hin. exists (k, p). split; [reflexivity|].
    apply list_elem_of_filter. now split.
Qed.

Lemma Forall2_elem_r {A B} (P : A -> B -> Prop) (l : list A) (k : list B) (y : B) :
  Forall2 P l k -> y ∈ k -> exists x, x ∈ l /\ P x y.
Proof.
  induction 1 as [|x0 y0 l k HP _ IH]; intros Hy; [inversion Hy|].
  apply elem_of_cons in Hy as [->|Hy].
  - exists x0. split; [left | exact HP].
  - destruct (IH Hy) as (x & Hx & HPx). exists x. split; [now right | exact HPx].
Qed.

Lemma Forall2_elem_l {A B} (P : A -> B -> Prop) (l : list A) (k : list B) (x : A) :
  Forall2 P l k -> x ∈ l -> exists y, y ∈ k /\ P x y.
Proof.
  induction 1 as [|x0 y0 l k HP _ IH]; intros Hx; [inversion Hx|].
  apply elem_of_cons in Hx as [->|Hx].
  - exists y0. split; [left | exact HP].
  - destruct (IH Hx) as (y & Hy & HPy). exists y. split; [now right | exact HPy].
Qed.

Lemma elem_of_survivors (base : string) (r : Report) (vis : Visit) :
  vis ∈ survivors base r ->
  vis ∈ traversal base r /\ status (v_mutant vis) = Some "Survived".
Proof.
  unfold survivors. intros H. apply list_elem_of_filter in H as [Hs Hin].
  split; [exact Hin|]. unfold is_survived in Hs.
  destruct (status (v_mutant vis)) as [s|]; [|destruct Hs].
  apply Is_true_true, String.eqb_eq in Hs. now subst.
Qed.

(** X15: The invariant of the groups: a prompt stands in the group of a
    mutator name exactly when it is the prompt of a surviving mutant of
    the report that has this mutator name. *)
Theorem group_holds_prompts_of_its_mutator
    (base : string) (r : Report) (d : Groups) (k p : string) :
  collect_prompts base (JsonObject r) = Ok d ->
  p ∈ group k d
  <-> exists vis,
        vis ∈ traversal base r
        /\ status (v_mutant vis) = Some "Survived"
        /\ mutatorName (v_mutant vis) = Some k
        /\ visit_prompt vis = Ok (k, p).
Proof.
  intros Hd. destruct (collect_prompts_entries _ _ _ Hd) as (es & HF & ->).
  rewrite entries_groups_group, elem_of_prompts_of. split.
  - intros Hin. destruct (Forall2_elem_r _ _ _ _ HF Hin) as (vis & Hvis & Hp).
    destruct (elem_of_survivors _ _ _ Hvis) as [Ht Hs].
    exists vis. repeat split; try assumption.
    now apply build_prompt_mutator in Hp.
  - intros (vis & Ht & Hs & _ & Hp).
    assert (vis ∈ survivors base r) as Hvis.
    { unfold survivors. apply list_elem_of_filter. split; [|exact Ht].
      unfold is_survived. now rewrite Hs. }
    destruct (Forall2_elem_l _ _ _ _ HF Hvis) as (e & He & Hp').
    rewrite Hp in Hp'. inversion Hp'. now subst.
Qed.

Lemma group_holds_prompts_of_its_mutator_witness :
  foo_prompt ∈ group "Foo" [("Foo", [foo_prompt])]
  <-> exists vis,
        vis ∈ traversal "x/" foo_report
        /\ status (v_mutant vis) = Some "Survived"
        /\ mutatorName (v_mutant vis) = Some "Foo"
        /\ visit_prompt vis = Ok ("Foo", foo_prompt).
Proof.
  exact (group_holds_prompts_of_its_mutator "x/" foo_report [("Foo", [foo_prompt])]
           "Foo" foo_prompt eq_refl).
Defined.

(** X16: A file entry without the key [mutants], with an empty list of
    mutants or with no surviving mutant contributes nothing: the outcome
    of the run is that of the report without the entry. *)
Theorem file_entry_without_survivor_contributes_nothing
    (item : string * FileData) (before after : list (string * FileData)) :
  Forall not_survived (get (mutants (snd item)) []) ->
  forall report_path output_dir base w,
    outcome (generate_prompts_by_mutator report_path output_dir base
               (with_report report_path {| files := Some (before ++ item :: after) |} w))
    = outcome (generate_prompts_by_mutator report_path output_dir base
                 (with_report report_path {| files := Some (before ++ after) |} w)).
Proof.
  intros Hall report_path output_dir base w. apply outcome_by_groups.
  unfold collect_prompts. simpl. apply for_each_skip.
  intros d. now apply process_file_unchanged.
Qed.

Lemma file_entry_without_survivor_contributes_nothing_witness :
  outcome (generate_prompts_by_mutator "report.json" "out" "x/"
             (with_report "report.json"
                {| files := Some ([("x/y.js", {| source := Some "let a = 1;";
                                                mutants := Some [survived_mutant 1 "Foo"] |})]
                                  ++ ("x/empty.js", {| source := None; mutants := None |})
                                  :: []) |} blank_world))
  = outcome (generate_prompts_by_mutator "report.json" "out" "x/"
               (with_report "report.json"
                  {| files := Some ([("x/y.js", {| source := Some "let a = 1;";
                                                  mutants := Some [survived_mutant 1 "Foo"] |})]
                                    ++ []) |} blank_world)).
Proof.
  apply (file_entry_without_survivor_contributes_nothing
           ("x/empty.js", {| source := None; mutants := None |})).
  constructor.
Defined.

(** ** The base path and the prompts *)











(** ** The original line *)

Lemma list_getitem_elem {A} (l : list A) (i : Z) (x : A) :
  list_getitem l i = Ok x -> x ∈ l.
Proof.
  unfold list_getitem. destruct (_ || _); [discriminate|].
  destruct (l !! Z.to_nat _) as [y|] eqn:E; [|discriminate].
  intros H. inversion H; subst. now apply list_elem_of_lookup_2 in E.
Qed.

Lemma filter_snoc_empty (keep : ascii -> bool) (s : string) (c : ascii) :
  string_filter keep s = EmptyString -> keep c = false ->
  string_filter keep (s +:+ String c EmptyString) = EmptyString.
Proof. intros Hs Hc. rewrite string_filter_app, Hs. simpl. now rewrite Hc. Qed.

Lemma splitlines_from_no_break (n : nat) :
  forall s cur,
    (String.length s <= n)%nat ->
    string_filter PyStr.is_linebreak cur = EmptyString ->
    Forall (fun l => string_filter PyStr.is_linebreak l = EmptyString)
           (PyStr.splitlines_from cur s).
Proof.
  induction n as [|n IH]; intros s cur Hlen Hcur.
  - destruct s; [|simpl in Hlen; lia]. simpl. destruct cur; repeat constructor.
    exact Hcur.
  - destruct s as [|c s]; [simpl; destruct cur; repeat constructor; exact Hcur|].
    simpl in Hlen. simpl.
    destruct (PyStr.is_linebreak c) eqn:Hc.
    + constructor; [exact Hcur|].
      destruct (N.eqb (PyStr.ord c) 13); [|apply IH; [lia | reflexivity]].
      destruct s as [|c' s']; [apply IH; [simpl; lia | reflexivity]|].
      destruct (N.eqb (PyStr.ord c') 10); apply IH; simpl in *; try lia; reflexivity.
    + apply IH; [lia|]. now apply filter_snoc_empty.
Qed.

(** No line of [splitlines] holds a line boundary. *)
Lemma splitlines_no_break (s : string) :
  Forall (fun l => string_filter PyStr.is_linebreak l = EmptyString) (PyStr.splitlines s).
Proof. now apply (splitlines_from_no_break (String.length s)). Qed.

Lemma filter_cons_empty (keep : ascii -> bool) (c : ascii) (s : string) :
  string_filter keep (String c s) = EmptyString ->
  keep c = false /\ string_filter keep s = EmptyString.
Proof. simpl. destruct (keep c); [discriminate | now split]. Qed.

Lemma lstrip_filter (keep : ascii -> bool) (s : string) :
  string_filter keep s = EmptyString -> string_filter keep (PyStr.lstrip s) = EmptyString.
Proof.
  induction s as [|c s IH]; [reflexivity|]. intros H.
  destruct (filter_cons_empty _ _ _ H) as [Hc Hs]. simpl.
  destruct (PyStr.is_space c); [now apply IH | exact H].
Qed.

Lemma rstrip_filter (keep : ascii -> bool) (s : string) :
  string_filter keep s = EmptyString -> string_filter keep (PyStr.rstrip s) = EmptyString.
Proof.
  induction s as [|c s IH]; [reflexivity|]. intros H.
  destruct (filter_cons_empty _ _ _ H) as [Hc Hs]. specialize (IH Hs). simpl.
  destruct (PyStr.rstrip s) as [|d r].
  - destruct (PyStr.is_space c); [reflexivity | simpl; now rewrite Hc].
  - simpl in *. now rewrite Hc.
Qed.

Lemma rstrip_idempotent (s : string) : PyStr.rstrip (PyStr.rstrip s) = PyStr.rstrip s.
Proof.
  induction s as [|c s IH]; [reflexivity|]. simpl.
  destruct (PyStr.rstrip s) as [|d r] eqn:E.
  - destruct (PyStr.is_space c) eqn:Hc; [reflexivity|]. simpl. now rewrite Hc.
  - change (PyStr.rstrip (String c (String d r)))
      with (match PyStr.rstrip (String d r) with
            | EmptyString => if PyStr.is_space c then EmptyString else String c EmptyString
            | String d' r' => String c (String d' r')
            end).
    now rewrite IH.
Qed.

Lemma lstrip_rstrip (s : string) :
  PyStr.lstrip (PyStr.rstrip (PyStr.lstrip s)) = PyStr.rstrip (PyStr.lstrip s).
Proof.
  induction s as [|c s IH]; [reflexivity|]. simpl.
  destruct (PyStr.is_space c) eqn:Hc; [exact IH|]. simpl.
  destruct (PyStr.rstrip s); rewrite ?Hc; simpl; now rewrite Hc.
Qed.

Lemma strip_idempotent (s : string) : PyStr.strip (PyStr.strip s) = PyStr.strip s.
Proof. unfold PyStr.strip. now rewrite lstrip_rstrip, rstrip_idempotent. Qed.

(** X18: Whatever [extract_original_line] answers is one trimmed line: it
    holds no line boundary and stripping it again changes nothing, so the
    Original Code field of a prompt never spans lines. *)
Theorem original_line_is_one_trimmed_line (source_code : string) (n : Z) (o : string) :
  extract_original_line source_code n = Ok o ->
  string_filter PyStr.is_linebreak o = EmptyString /\ PyStr.strip o = o.
Proof.
  unfold extract_original_line.
  destruct (n <=? Z.of_nat (length (PyStr.splitlines source_code)));
    [|intros H; inversion H; split; reflexivity].
  destruct (list_getitem (PyStr.splitlines source_code) (n - 1)) as [l|] eqn:E;
    [|discriminate].
  simpl. intros H. inversion H; subst o. split; [|apply strip_idempotent].
  apply list_getitem_elem in E.
  pose proof (splitlines_no_break source_code) as Hall.
  rewrite Forall_forall in Hall. specialize (Hall _ E).
  unfold PyStr.strip. now apply rstrip_filter, lstrip_filter.
Qed.

Lemma original_line_is_one_trimmed_line_witness :
  string_filter PyStr.is_linebreak "let b = 2;" = EmptyString
  /\ PyStr.strip "let b = 2;" = "let b = 2;".
Proof.
  exact (original_line_is_one_trimmed_line
           ("let a = 1;" +:+ String (ascii_of_N 13) PyStr.nl +:+ "   let b = 2;  " +:+ PyStr.nl)
           2 "let b = 2;" eq_refl).
Defined.

(** ** Surviving mutants with missing keys *)

Lemma build_prompt_missing_key (lp src : string) (m : Mutant) :
  mutant_line m = None \/ mutatorName m = None ->
  exists e, build_prompt lp src m = Raise e.
Proof.
  unfold build_prompt, mutant_line.
  destruct (location m) as [loc|]; [|now eexists]. simpl.
  destruct (start loc) as [st|]; [|now eexists]. simpl.
  destruct (line st) as [n|]; [|now eexists]. simpl.
  intros [H|H]; [discriminate|].
  destruct (extract_original_line src n); simpl; [|now eexists].
  rewrite H. now eexists.
Qed.

(** X19: A surviving mutant is required to have a line number and a mutator
    name: without [location], the first key the loop body reads, the body
    raises [KeyError] for that key, and a report that holds a surviving
    mutant without [location.start.line] or without [mutatorName] makes
    the run raise and leave the world unchanged, whatever else the report
    holds. *)
Theorem survivor_missing_key_aborts (m : Mutant) :
  status m = Some "Survived" ->
  (location m = None ->
   forall lp src d, process_mutant lp src m d = Raise (KeyError "location"))
  /\ (mutant_line m = None \/ mutatorName m = None ->
      forall report_path output_dir base w r,
        w_open w report_path = Json (JsonObject r) ->
        m ∈ all_mutants r ->
        exists e,
          generate_prompts_by_mutator report_path output_dir base w = (Raise e, w)).
Proof.
  intros Hst. split.
  - intros Hloc lp src d. unfold process_mutant, build_prompt. now rewrite Hst, Hloc.
  - intros Hmiss report_path output_dir base w r Hopen Hin.
    rewrite generate_prompts_by_mutator_cases, Hopen.
    destruct (collect_prompts base (JsonObject r)) as [d|e] eqn:Hd; [|now exists e].
    exfalso.
    destruct (elem_of_all_mutants _ _ Hin) as (fs & item & Hfs & Hitem & Hm).
    unfold collect_prompts in Hd. rewrite Hfs in Hd. simpl in Hd.
    apply for_each_ok_each in Hd. rewrite Forall_forall in Hd.
    destruct (Hd _ Hitem) as (d1 & d2 & Hfile).
    unfold process_file in Hfile. apply for_each_ok_each in Hfile.
    rewrite Forall_forall in Hfile.
    destruct (Hfile _ Hm) as (d3 & d4 & Hmut).
    rewrite process_mutant_survived in Hmut by (unfold is_survived; now rewrite Hst).
    destruct (build_prompt_missing_key
                (local_path base (fst item)) (get (source (snd item)) EmptyString) m Hmiss)
      as [e He].
    rewrite He in Hmut. discriminate.
Qed.

Lemma survivor_missing_key_aborts_witness :
  let m := {| status := Some "Survived";
              location := Some {| start := Some {| line := Some 1 |} |};
              replacement := Some "x";
              mutatorName := None |} in
  let w := with_report "report.json" (foo_report_with m) blank_world in
  exists e, generate_prompts_by_mutator "report.json" "out" "x/" w = (Raise e, w).
Proof.
  intros m w.
  apply (proj2 (survivor_missing_key_aborts m eq_refl) (or_intror eq_refl)
           "report.json" "out" "x/" w (foo_report_with m)).
  - reflexivity.
  - right. left.
Defined.

(** ** Mutator names with distinct file names *)

Lemma last_writer_sole (names : list string) (k : string) :
  NoDup (map output_filename names) -> k ∈ names ->
  last_writer (output_filename k) names = Some k.
Proof.
  intros Hnd Hk.
  destruct (last_writer_exists (output_filename k) names k Hk eq_refl)
    as (k' & Hlast & Hk' & Hname).
  rewrite Hlast. f_equal.
  apply list_elem_of_lookup in Hk as [i Hi]. apply list_elem_of_lookup in Hk' as [j Hj].
  assert (i = j) as ->; [|congruence].
  apply (NoDup_lookup _ i j (output_filename k) Hnd).
  - now rewrite lookup_map, Hi.
  - rewrite lookup_map, Hj. simpl. now rewrite Hname.
Qed.

(** X20: When the surviving mutator names have pairwise distinct file names,
    a run that ends without an exception writes one file for each of them,
    holding exactly the prompts of that name in their order, with a
    newline, three hyphens and a newline between two prompts and nothing
    after the last; an output directory that was absent or empty then
    holds as many files as the summary line counts mutators. *)
Theorem distinct_names_one_file_each
    (report_path output_dir base : string) (w w' : World) (v : PyValue) :
  generate_prompts_by_mutator report_path output_dir base w = (Ok v, w') ->
  exists r es,
    w_open w report_path = Json (JsonObject r)
    /\ Forall2 (fun vis e => visit_prompt vis = Ok e) (survivors base r) es
    /\ let names := first_seen (survived_mutator_names r) in
       NoDup (map output_filename names) ->
       (forall k, k ∈ names ->
          file_content output_dir (output_filename k) w'
          = Some (spec_joined (prompts_of k es)))
       /\ (w_dirs w !! output_dir = None \/ w_dirs w !! output_dir = Some ∅ ->
           exists entries,
             w_dirs w' !! output_dir = Some entries
             /\ size entries = distinct_survived_mutators r
             /\ w_stdout w'
                = w_stdout w ++ [summary (size entries) output_dir]).
Proof.
  intros Hrun.
  destruct (successful_run _ _ _ _ _ _ Hrun)
    as (r & es & Hopen & HF & Hd & _ & Hdirs & Hout & _).
  exists r, es. split; [exact Hopen|]. split; [exact HF|].
  rewrite <- (entries_names _ _ _ HF). cbv zeta. intros Hnd. split.
  - intros k Hk. unfold file_content. rewrite Hdirs, lookup_insert_eq.
    rewrite (written_file _ _ _ k).
    + now rewrite entries_groups_group, joined_spec.
    + rewrite entries_groups_keys. apply first_seen_NoDup.
    + rewrite entries_groups_keys. now apply last_writer_sole.
  - intros Hfresh. eexists. split; [rewrite Hdirs; apply lookup_insert_eq|].
    assert (default ∅ (w_dirs w !! output_dir) = (∅ : gmap string string)) as ->
      by (destruct Hfresh as [-> | ->]; reflexivity).
    assert (size (write_all (fold_left add_entry es []) ∅)
            = length (first_seen (map fst es))) as Hsize.
    { rewrite <- size_dom, write_all_dom, dom_empty_L, (left_id_L ∅ (∪)).
      rewrite <- (map_map fst output_filename), entries_groups_keys.
      rewrite size_list_to_set by exact Hnd. apply length_map. }
    split.
    + rewrite Hsize. unfold distinct_survived_mutators.
      rewrite <- (entries_names _ _ _ HF). apply first_seen_length.
    + now rewrite Hsize.
Qed.

Lemma distinct_names_one_file_each_witness :
  let w := with_report "report.json" two_group_report blank_world in
  let w' := snd (generate_prompts_by_mutator "report.json" "out" EmptyString w) in
  first_seen (survived_mutator_names two_group_report) = ["Foo"; "Bar"]
  /\ file_content "out" "foo_prompts.txt" w'
     = Some (prompt_text "y.js" 1 "Foo" "let a = 1;" "N/A"
             +:+ spec_separator
             +:+ prompt_text "y.js" 2 "Foo" "let b = 2;" "N/A")
  /\ file_content "out" "bar_prompts.txt" w'
     = Some (prompt_text "y.js" 2 "Bar" "let b = 2;" "N/A")
  /\ exists entries,
       w_dirs w' !! "out" = Some entries
       /\ size entries = 2%nat
       /\ w_stdout w' = ["Generated prompts for 2 mutators in 'out'"].
Proof.
  intros w w'.
  destruct (distinct_names_one_file_each "report.json" "out" EmptyString w w' PyNone eq_refl)
    as (r & es & Hopen & HF & Hall).
  assert (r = two_group_report) as -> by (unfold w in Hopen; now inversion Hopen).
  assert (es = [("Foo", prompt_text "y.js" 1 "Foo" "let a = 1;" "N/A");
                ("Bar", prompt_text "y.js" 2 "Bar" "let b = 2;" "N/A");
                ("Foo", prompt_text "y.js" 2 "Foo" "let b = 2;" "N/A")]) as Hes.
  { apply (entries_unique _ _ _ HF). repeat constructor. }
  destruct Hall as (Hfiles & Hfresh).
  { change (map output_filename (first_seen (survived_mutator_names two_group_report)))
      with ["foo_prompts.txt"; "bar_prompts.txt"].
    apply NoDup_cons. split; [|apply NoDup_singleton].
    intros H. apply list_elem_of_singleton in H. discriminate H. }
  split; [reflexivity|]. split; [|split].
  - change "foo_prompts.txt" with (output_filename "Foo").
    rewrite Hfiles by (change (first_seen (survived_mutator_names two_group_report))
                         with ["Foo"; "Bar"]; left).
    rewrite Hes. reflexivity.
  - change "bar_prompts.txt" with (output_filename "Bar").
    rewrite Hfiles by (change (first_seen (survived_mutator_names two_group_report))
                         with ["Foo"; "Bar"]; right; left).
    rewrite Hes. reflexivity.
  - destruct Hfresh as (entries & Hentries & Hsize & Hout); [now left|].
    exists entries. split; [exact Hentries|]. split; [exact Hsize|].
    rewrite Hout, Hsize. reflexivity.
Defined.
